(** * The speech-token decoder loop of the Chatterbox scripts

    A shallow embedding of the control flow written in this repository:

    - [src/speaker_server.py], [t3_inference_turbo_optimized]: the sampling
      loop patched onto [T3.inference_turbo];
    - [src/debug_python_tokens.py]: the arg-max variant of the same loop;
    - [src/speaker_pipe.py]: the line-oriented stdin/stdout server.

    Everything the scripts import (the transformer, the logits processors of
    [transformers], [torch.multinomial], the TTS [generate] call) is a field
    of a runtime class: the theorems hold for every implementation of it.

    Conventions of the model:
    - a Python float is a binary64 float, compared as IEEE 754 compares; a
      Python int is a [Z];
    - a batch has one row and [text_tokens] is not empty, so that
      [speech_start_token] is the single id [start_speech_token];
    - the transformer is a function of its inputs and of the cache it is
      given, and may raise; the only state a run carries is the state of
      torch's random generator;
    - stdout is the list of the [print] calls, in order;
    - a text that a server reads, strips or splits is a Python [str], the
      sequence of its code points; the texts that the decoding scripts only
      join and print are Rocq strings. *)

From Stdlib Require Import ZArith List String Ascii Bool Lia.
From Stdlib Require Import Floats DecimalString Permutation Sorted.
From ExtLib Require Import Structures.Monad Structures.MonadExc.
Import ListNotations.
Import MonadNotation.

(* Python writes its floats in decimal: each literal below is the binary64
   value nearest to it, as in Python. *)
#[local] Set Warnings "-inexact-float".

Local Open Scope Z_scope.
Local Open Scope string_scope.
Local Open Scope list_scope.
Local Open Scope monad_scope.

(* ===================================================================== *)
(** * Part I: definitions                                                 *)
(* ===================================================================== *)

(** ** Python effects: exceptions, a global state, and an output log *)

Module Py.

(** The outcome of a Python call: a value, or a raised exception. *)
Inductive result (E A : Type) : Type :=
| Ok (a : A)
| Raise (e : E).
Arguments Ok {E A} a.
Arguments Raise {E A} e.

(** A computation over a state [S] that logs events [Ev] (in order) and may
    raise [E].  The log and the state survive a raise, as the side effects of
    Python code do. *)
Definition M (S Ev E A : Type) : Type := S -> list Ev * result E A * S.

Section Ops.
Context {S Ev E : Type}.

Definition ret_ {A} (a : A) : M S Ev E A := fun s => ([], Ok a, s).

Definition bind_ {A B} (m : M S Ev E A) (k : A -> M S Ev E B) : M S Ev E B :=
  fun s =>
    match m s with
    | (l1, Ok a, s1) => let '(l2, r, s2) := k a s1 in (l1 ++ l2, r, s2)
    | (l1, Raise e, s1) => (l1, Raise e, s1)
    end.

Definition raise_ {A} (e : E) : M S Ev E A := fun s => ([], Raise e, s).

(** [try: m  except Exception as e: h e] *)
Definition catch_ {A} (m : M S Ev E A) (h : E -> M S Ev E A) : M S Ev E A :=
  fun s =>
    match m s with
    | (l1, Ok a, s1) => (l1, Ok a, s1)
    | (l1, Raise e, s1) => let '(l2, r, s2) := h e s1 in (l1 ++ l2, r, s2)
    end.

(** One event appended to the log. *)
Definition emit (ev : Ev) : M S Ev E unit := fun s => ([ev], Ok tt, s).

(** The outcome of a call that touches no state. *)
Definition lift {A} (r : result E A) : M S Ev E A := fun s => ([], r, s).

(** A call that reads and writes the state. *)
Definition stateful {A} (f : S -> result E A * S) : M S Ev E A :=
  fun s => let '(r, s') := f s in ([], r, s').

End Ops.

#[global] Instance Monad_M {S Ev E} : Monad (M S Ev E) :=
  {| ret := @ret_ S Ev E; bind := @bind_ S Ev E |}.

#[global] Instance MonadExc_M {S Ev E} : MonadExc E (M S Ev E) :=
  {| raise := @raise_ S Ev E; catch := @catch_ S Ev E |}.

(** The three components of a finished run. *)
Definition log_of {S Ev E A} (x : list Ev * result E A * S) : list Ev := fst (fst x).
Definition result_of {S Ev E A} (x : list Ev * result E A * S) : result E A := snd (fst x).
Definition state_of {S Ev E A} (x : list Ev * result E A * S) : S := snd x.

(** A computation that neither reads nor writes the state: its log and its
    outcome are the same from every state, and the state is left as it was. *)
Definition stateless {S Ev E A} (m : M S Ev E A) : Prop :=
  exists log r, forall s, m s = (log, r, s).

(** A property of the value of every run that returns. *)
Definition returns {S Ev E A} (m : M S Ev E A) (P : A -> Prop) : Prop :=
  forall s a, result_of (m s) = Ok a -> P a.

(** [str(n)] of a Python int. *)
Definition str_of_int (n : Z) : string := NilZero.string_of_int (Z.to_int n).

End Py.
Export Py.

(** ** What the scripts import *)

(** The four processors of [transformers.generation.logits_process] that the
    scripts construct, with the argument each constructor is given. *)
Inductive LogitsProcessor : Type :=
| TemperatureLogitsWarper (temperature : float)
| TopKLogitsWarper (top_k : Z)
| TopPLogitsWarper (top_p : float)
| RepetitionPenaltyLogitsProcessor (penalty : float).

(** The libraries behind the loop.  A token is its integer id; a batch has
    one row (the loop reads the sampled token with [.item()]), so a
    [(1, n)] tensor of ids is a [list Z]. *)
Class Runtime : Type := {
  Logits : Type;            (* a row of scores, one per speech token *)
  Probs : Type;             (* the row after [F.softmax] *)
  Cache : Type;             (* [past_key_values] *)
  Conds : Type;             (* [t3_cond] *)
  Rng : Type;               (* the state of torch's global generator *)
  Exn : Type;               (* Python exceptions *)
  (* chatterbox: [self.hp], and the transformer with its speech head *)
  start_speech_token : Z;
  stop_speech_token : Z;
  (* [prepare_input_embeds(t3_cond, text_tokens, speech_tokens, cfg_weight)],
     [self.tfmr(inputs_embeds=embeds, use_cache=True)], [self.speech_head] *)
  prefill : Conds -> list Z -> list Z -> option float -> result Exn (Cache * Logits);
  (* [self.tfmr(inputs_embeds=self.speech_emb(token), past_key_values=..)],
     [self.speech_head] *)
  decode : Cache -> Z -> result Exn (Cache * Logits);
  (* transformers: what a constructor raises, and a processor's [__call__] *)
  init_error : LogitsProcessor -> option Exn;
  process : LogitsProcessor -> list Z -> Logits -> Logits;
  (* torch *)
  softmax : Logits -> Probs;
  multinomial : Probs -> Rng -> result Exn Z * Rng;
  argmax : Logits -> Z;
  (* the tokenizer and the conditionals of the loaded model *)
  tokenizer_encode : string -> list Z;
  conds_t3 : Conds
}.

(** The two ways the transformer is called. *)
Inductive tfmr_inputs : Type :=
| Embeds (text_tokens speech_tokens : list Z)
| SpeechEmb (token : Z).

(** What a run leaves behind: the lines it printed, and every call of the
    transformer, with the exception it raised if it did. *)
Inductive event {R : Runtime} : Type :=
| Stdout (line : string)
| Tfmr (inputs : tfmr_inputs) (raised : option Exn).

(** Computations of the two decoding scripts: the state is torch's
    generator. *)
Notation "'T3M'" := (M Rng event Exn).

Definition raised_by {E A} (r : result E A) : option E :=
  match r with Ok _ => None | Raise e => Some e end.

(** A call of the transformer, logged with its outcome. *)
Definition tfmr {R : Runtime} (inputs : tfmr_inputs)
  (r : result Exn (Cache * Logits)) : T3M (Cache * Logits) :=
  emit (Tfmr inputs (raised_by r)) ;; lift r.

Definition print {R : Runtime} (line : string) : T3M unit := emit (Stdout line).

(** A constructor call [P(arg)]. *)
Definition new {R : Runtime} (p : LogitsProcessor) : T3M LogitsProcessor :=
  match init_error p with
  | Some e => raise e
  | None => ret p
  end.

(** A log in which no call of the transformer raised. *)
Definition fault_free {R : Runtime} (log : list event) : Prop :=
  forall inputs e, ~ In (Tfmr inputs (Some e)) log.

(** A finished run that handled the transformer's exceptions by doing
    nothing: either it returned and no call raised, or it raised [e] and
    no call raised before the last event, which, if it is a call that
    raised, raised [e]. *)
Definition disciplined {R : Runtime} {A} (x : list event * result Exn A * Rng) : Prop :=
  match result_of x with
  | Ok _ => fault_free (log_of x)
  | Raise e =>
      exists before,
        fault_free before
        /\ (log_of x = before
            \/ exists inputs, log_of x = before ++ [Tfmr inputs (Some e)])
  end.

(** [LogitsProcessorList.__call__(input_ids, scores)]: every processor of the
    list in turn, each on the scores the previous one returned. *)
Definition logits_processors_call {R : Runtime} (logits_processors : list LogitsProcessor)
  (input_ids : list Z) (scores : Logits) : Logits :=
  fold_left (fun scores processor => process processor input_ids scores)
    logits_processors scores.

(** [torch.multinomial(F.softmax(processed_logits, dim=-1), num_samples=1)] *)
Definition sample {R : Runtime} (processed_logits : Logits) : T3M Z :=
  stateful (multinomial (softmax processed_logits)).

(** ** [src/speaker_server.py] *)

Module SpeakerServer.

(** The keyword arguments of [t3_inference_turbo_optimized]. *)
Record SamplingConfig : Type := {
  temperature : float;
  top_k : Z;
  top_p : float;
  repetition_penalty : float;
  max_gen_len : Z
}.

(** The defaults of the signature (line 36). *)
Definition default_config : SamplingConfig :=
  {| temperature := 0.1; top_k := 50; top_p := 0.95;
     repetition_penalty := 1.2; max_gen_len := 1500 |}.

(** [str(text_tokens.shape)] for a [(1, n)] tensor. *)
Definition shape_str (text_tokens : list Z) : string :=
  "torch.Size([1, " ++ str_of_int (Z.of_nat (List.length text_tokens)) ++ "])".

(** Lines 42-50. *)
Definition build_logits_processors {R : Runtime} (c : SamplingConfig)
  : T3M (list LogitsProcessor) :=
  let logits_processors := [] in
  logits_processors <-
    (if ((0 <? temperature c)%float && negb (temperature c =? 1)%float)%bool
     then p <- new (TemperatureLogitsWarper (temperature c)) ;;
          ret (logits_processors ++ [p])
     else ret logits_processors) ;;
  logits_processors <-
    (if (0 <? top_k c)%Z
     then p <- new (TopKLogitsWarper (top_k c)) ;;
          ret (logits_processors ++ [p])
     else ret logits_processors) ;;
  logits_processors <-
    (if (top_p c <? 1)%float
     then p <- new (TopPLogitsWarper (top_p c)) ;;
          ret (logits_processors ++ [p])
     else ret logits_processors) ;;
  logits_processors <-
    (if negb (repetition_penalty c =? 1)%float
     then p <- new (RepetitionPenaltyLogitsProcessor (repetition_penalty c)) ;;
          ret (logits_processors ++ [p])
     else ret logits_processors) ;;
  ret logits_processors.

(** Lines 68-87: [for i in range(max_gen_len): ... else: ...], with [n]
    iterations left and [i] the index of the next one. *)
Fixpoint decode_loop {R : Runtime} (c : SamplingConfig)
  (logits_processors : list LogitsProcessor) (n : nat) (i : Z)
  (generated_speech_tokens : list Z) (current_speech_token : Z)
  (past_key_values : Cache) : T3M (list Z) :=
  match n with
  | O =>
      print ("DEBUG: Hit max_gen_len (" ++ str_of_int (max_gen_len c) ++ ")") ;;
      ret generated_speech_tokens
  | S n' =>
      '(past_key_values, speech_logits) <-
        tfmr (SpeechEmb current_speech_token)
             (decode past_key_values current_speech_token) ;;
      let input_ids := generated_speech_tokens in
      let processed_logits :=
        logits_processors_call logits_processors input_ids speech_logits in
      next_speech_token <- sample processed_logits ;;
      let token_val := next_speech_token in
      if (token_val =? stop_speech_token)%Z
      then print ("DEBUG: Hit STOP_TOKEN at step " ++ str_of_int i) ;;
           ret generated_speech_tokens
      else decode_loop c logits_processors n' (i + 1)
             (generated_speech_tokens ++ [next_speech_token])
             next_speech_token past_key_values
  end.

(** Lines 36-91.  The tensor returned on line 91 is the list of the sampled
    ids. *)
Definition t3_inference_turbo_optimized {R : Runtime} (t3_cond : Conds)
  (text_tokens : list Z) (c : SamplingConfig) : T3M (list Z) :=
  print ("DEBUG: Starting inference with max_gen_len=" ++ str_of_int (max_gen_len c)
         ++ ", text_tokens shape=" ++ shape_str text_tokens) ;;
  logits_processors <- build_logits_processors c ;;
  let speech_start_token := [start_speech_token] in
  let generated_speech_tokens := [] in
  '(past_key_values, speech_logits) <-
    tfmr (Embeds text_tokens speech_start_token)
         (prefill t3_cond text_tokens speech_start_token (Some 0%float)) ;;
  let processed_logits :=
    logits_processors_call logits_processors speech_start_token speech_logits in
  next_speech_token <- sample processed_logits ;;
  let generated_speech_tokens := generated_speech_tokens ++ [next_speech_token] in
  let current_speech_token := next_speech_token in
  decode_loop c logits_processors (Z.to_nat (max_gen_len c)) 0
    generated_speech_tokens current_speech_token past_key_values.

(** *** Vocabulary for the statements about the pipeline *)

(** The test of each [if] of lines 43-49. *)
Definition temperature_enabled (c : SamplingConfig) : bool :=
  ((0 <? temperature c)%float && negb (temperature c =? 1)%float)%bool.
Definition top_k_enabled (c : SamplingConfig) : bool := (0 <? top_k c)%Z.
Definition top_p_enabled (c : SamplingConfig) : bool := (top_p c <? 1)%float.
Definition penalty_enabled (c : SamplingConfig) : bool :=
  negb (repetition_penalty c =? 1)%float.

(** What each [if] contributes: its processor, or nothing. *)
Definition temperature_stage (c : SamplingConfig) : list LogitsProcessor :=
  if temperature_enabled c then [TemperatureLogitsWarper (temperature c)] else [].
Definition top_k_stage (c : SamplingConfig) : list LogitsProcessor :=
  if top_k_enabled c then [TopKLogitsWarper (top_k c)] else [].
Definition top_p_stage (c : SamplingConfig) : list LogitsProcessor :=
  if top_p_enabled c then [TopPLogitsWarper (top_p c)] else [].
Definition penalty_stage (c : SamplingConfig) : list LogitsProcessor :=
  if penalty_enabled c then [RepetitionPenaltyLogitsProcessor (repetition_penalty c)] else [].

(** The stages in the order of the four [if]s of the source. *)
Definition source_order (c : SamplingConfig) : list LogitsProcessor :=
  temperature_stage c ++ top_k_stage c ++ top_p_stage c ++ penalty_stage c.

(** The stages in the order the specification gives: penalty, temperature,
    top-k, top-p. *)
Definition spec_order (c : SamplingConfig) : list LogitsProcessor :=
  penalty_stage c ++ temperature_stage c ++ top_k_stage c ++ top_p_stage c.

(** Constructing the processors of a list, first to last: the exception of
    the first constructor that raises, or the list. *)
Fixpoint construct {R : Runtime} (ps : list LogitsProcessor)
  : result Exn (list LogitsProcessor) :=
  match ps with
  | [] => Ok []
  | p :: ps' =>
      match init_error p with
      | Some e => Raise e
      | None =>
          match construct ps' with
          | Ok qs => Ok (p :: qs)
          | Raise e => Raise e
          end
      end
  end.

(** A sampler that never draws the stop token. *)
Definition never_samples_stop {R : Runtime} : Prop :=
  forall probs r token r',
    multinomial probs r = (Ok token, r') -> token <> stop_speech_token.

(** A configuration with one keyword argument replaced. *)
Definition with_temperature (t : float) (c : SamplingConfig) : SamplingConfig :=
  {| temperature := t; top_k := top_k c; top_p := top_p c;
     repetition_penalty := repetition_penalty c; max_gen_len := max_gen_len c |}.
Definition with_top_k (k : Z) (c : SamplingConfig) : SamplingConfig :=
  {| temperature := temperature c; top_k := k; top_p := top_p c;
     repetition_penalty := repetition_penalty c; max_gen_len := max_gen_len c |}.
Definition with_top_p (p : float) (c : SamplingConfig) : SamplingConfig :=
  {| temperature := temperature c; top_k := top_k c; top_p := p;
     repetition_penalty := repetition_penalty c; max_gen_len := max_gen_len c |}.
Definition with_max_gen_len (n : Z) (c : SamplingConfig) : SamplingConfig :=
  {| temperature := temperature c; top_k := top_k c; top_p := top_p c;
     repetition_penalty := repetition_penalty c; max_gen_len := n |}.

End SpeakerServer.

(** ** [src/debug_python_tokens.py] *)

Module DebugPythonTokens.

(** Line 7. *)
Definition text : string := "Hi there!".

(** Lines 40-54: [for i in range(20): ...], with [n] iterations left and [i]
    the index of the next one.  The token is the arg-max of the processed
    scores: nothing is drawn from torch's generator. *)
Fixpoint argmax_loop {R : Runtime} (logits_processors : list LogitsProcessor)
  (n : nat) (i : Z) (speech_tokens : list Z) (past_key_values : Cache)
  (logits : Logits) : T3M (list Z) :=
  match n with
  | O => ret speech_tokens
  | S n' =>
      let processed_logits :=
        logits_processors_call logits_processors speech_tokens logits in
      let next_token := argmax processed_logits in
      print ("  Step " ++ str_of_int i ++ ": token=" ++ str_of_int next_token) ;;
      if (next_token =? stop_speech_token)%Z
      then print "  Hit stop token!" ;;
           ret speech_tokens
      else
        let speech_tokens := speech_tokens ++ [next_token] in
        '(past_key_values, logits) <-
          tfmr (SpeechEmb next_token) (decode past_key_values next_token) ;;
        argmax_loop logits_processors n' (i + 1) speech_tokens past_key_values logits
  end.

(** Lines 8-54, after the model is loaded; the value is the list
    [speech_tokens] the script ends with. *)
Definition main {R : Runtime} : T3M (list Z) :=
  print ("Generating for: " ++ text) ;;
  let text_tokens := tokenizer_encode text in
  let t3_cond := conds_t3 in
  let speech_start_token := [start_speech_token] in
  let logits_processors := [] in
  p <- new (RepetitionPenaltyLogitsProcessor 1.2) ;;
  let logits_processors := logits_processors ++ [p] in
  let speech_tokens := speech_start_token in
  print ("Start token: " ++ str_of_int start_speech_token) ;;
  print ("Stop token: " ++ str_of_int stop_speech_token) ;;
  '(past_key_values, logits) <-
    tfmr (Embeds text_tokens speech_start_token)
         (prefill t3_cond text_tokens speech_start_token None) ;;
  argmax_loop logits_processors 20 0 speech_tokens past_key_values logits.

End DebugPythonTokens.

(** ** Python [str] *)

Module Unicode.

(** A character of a Python [str] is a code point, and a [str] is the
    sequence of its code points. *)
Definition char : Type := N.
Definition unicode : Type := list char.

(** The [str] of a literal of the source whose characters are all ASCII. *)
Definition lit (s : string) : unicode := map N_of_ascii (list_ascii_of_string s).
Arguments lit : simpl never.

(** [s == t] *)
Fixpoint eqb (s t : unicode) : bool :=
  match s, t with
  | [], [] => true
  | a :: s', b :: t' => (a =? b)%N && eqb s' t'
  | _, _ => false
  end.

(** [c.isspace()], which is also the class [\s] of [re] on a [str]: the
    code points U+0009-U+000D, U+001C-U+0020, U+0085, U+00A0, U+1680,
    U+2000-U+200A, U+2028, U+2029, U+202F, U+205F and U+3000. *)
Definition isspace (c : char) : bool :=
  ((0x09 <=? c) && (c <=? 0x0D) || (0x1C <=? c) && (c <=? 0x20)
   || (c =? 0x85) || (c =? 0xA0) || (c =? 0x1680)
   || (0x2000 <=? c) && (c <=? 0x200A)
   || (c =? 0x2028) || (c =? 0x2029) || (c =? 0x202F) || (c =? 0x205F)
   || (c =? 0x3000))%N.

Fixpoint lstrip (s : unicode) : unicode :=
  match s with
  | [] => []
  | c :: s' => if isspace c then lstrip s' else s
  end.

Fixpoint rstrip (s : unicode) : unicode :=
  match s with
  | [] => []
  | c :: s' =>
      match rstrip s' with
      | [] => if isspace c then [] else [c]
      | t => c :: t
      end
  end.

(** [s.strip()] *)
Definition strip (s : unicode) : unicode := rstrip (lstrip s).

(** The line feed, U+000A. *)
Definition LF : char := 0x0A%N.

(** [text.split("\n")]: the lines of a text. *)
Fixpoint split_lines (text : unicode) : list unicode :=
  match text with
  | [] => [[]]
  | c :: text' =>
      if (c =? LF)%N then [] :: split_lines text'
      else match split_lines text' with
           | [] => [[c]]
           | line :: lines => (c :: line) :: lines
           end
  end.

End Unicode.

(** ** [src/speaker_pipe.py] *)

Module SpeakerPipe.
Import Unicode.

(** The loaded model behind [speak]: lines 19-25 turn a text into the base64
    text of a WAV file, or raise. *)
Class Speaker : Type := {
  World : Type;             (* the model, the device, the allocator *)
  Error : Type;             (* the exceptions [except Exception] catches *)
  synthesize : unicode -> World -> result Error unicode * World;
  str : Error -> unicode
}.

(** Computations of the server: the log is stdout, one entry for each
    [print], with the text that was printed. *)
Notation "'PipeM'" := (M World unicode Error).

(** Lines 17-36. *)
Definition speak {Sp : Speaker} (text : unicode) : PipeM unit :=
  catch
    (audio_b64 <- stateful (synthesize text) ;;
     emit (lit "AUDIO:" ++ audio_b64))
    (fun e => emit (lit "ERROR:" ++ str e)).

(** Lines 43-49: [for line in sys.stdin: ...]. *)
Fixpoint serve {Sp : Speaker} (stdin : list unicode) : PipeM unit :=
  match stdin with
  | [] => ret tt
  | line :: stdin' =>
      let text := strip line in
      if eqb text [] then serve stdin'
      else if eqb text (lit "EXIT") then ret tt
      else speak text ;; serve stdin'
  end.

(** Lines 38-49. *)
Definition main {Sp : Speaker} (stdin : list unicode) : PipeM unit :=
  emit (lit "READY") ;;
  serve stdin.

(** The requests a run answers: the stripped lines before the first [EXIT],
    the blank ones left out. *)
Fixpoint requests (stdin : list unicode) : list unicode :=
  match stdin with
  | [] => []
  | line :: stdin' =>
      let text := strip line in
      if eqb text [] then requests stdin'
      else if eqb text (lit "EXIT") then []
      else text :: requests stdin'
  end.

(** A response of the protocol. *)
Definition is_response (line : unicode) : Prop :=
  (exists audio_b64, line = lit "AUDIO:" ++ audio_b64)
  \/ (exists message, line = lit "ERROR:" ++ message).

(** What the reader of the pipe gets, line by line: [print] writes its
    text and a line feed, so a printed text with line feeds in it is read
    as several lines. *)
Definition lines_read (log : list unicode) : list unicode :=
  flat_map split_lines log.

End SpeakerPipe.

(** ** A scripted runtime, for concrete runs *)

Module Scripted.

(** Constructor checks in the style of [transformers]: a temperature or a
    penalty that is not positive, a [top_k] that is not positive and a
    [top_p] outside [0, 1] raise [ValueError]. *)
Definition value_error (p : LogitsProcessor) : option string :=
  match p with
  | TemperatureLogitsWarper t =>
      if (0 <? t)%float then None else Some "ValueError: temperature"
  | TopKLogitsWarper k =>
      if (0 <? k)%Z then None else Some "ValueError: top_k"
  | TopPLogitsWarper p =>
      if ((p <? 0)%float || (1 <? p)%float)%bool then Some "ValueError: top_p" else None
  | RepetitionPenaltyLogitsProcessor r =>
      if (0 <? r)%float then None else Some "ValueError: penalty"
  end.

(** A model whose [k]-th forward call either raises or returns scores with
    all their mass on one token, [script k].  Scores are that token together
    with the processors applied to them so far, in order; the cache counts
    the forward calls, the generator the draws. *)
Definition runtime (script : nat -> result string Z) : Runtime :=
  {| Logits := (Z * list LogitsProcessor)%type;
     Probs := Z;
     Cache := nat;
     Conds := unit;
     Rng := nat;
     Exn := string;
     start_speech_token := 6561;
     stop_speech_token := 6562;
     prefill := fun _ _ _ _ =>
       match script 0%nat with
       | Ok token => Ok (1%nat, (token, []))
       | Raise e => Raise e
       end;
     decode := fun past _ =>
       match script past with
       | Ok token => Ok (S past, (token, []))
       | Raise e => Raise e
       end;
     init_error := value_error;
     process := fun p _ scores => (fst scores, snd scores ++ [p]);
     softmax := fst;
     multinomial := fun token draws => (Ok token, S draws);
     argmax := fst;
     tokenizer_encode := fun s => map (fun c => Z.of_N (N_of_ascii c)) (list_ascii_of_string s);
     conds_t3 := tt |}.

(** Scripts: the tokens of a list, then [dflt] for ever. *)
Definition tokens (l : list Z) (dflt : Z) : nat -> result string Z :=
  fun k => Ok (nth k l dflt).

(** The tokens of a list, then a fault. *)
Definition tokens_then_fault (l : list Z) (e : string) : nat -> result string Z :=
  fun k => match nth_error l k with Some token => Ok token | None => Raise e end.

(** A model that never predicts the stop token: every call peaks on 9. *)
Definition steady : Runtime := runtime (tokens [] 9).

(** A model whose prefill scores peak on the stop token, 6562. *)
Definition stop_first : Runtime := runtime (tokens [6562; 10; 11] 12).

(** A model whose first and third scores peak on the stop token. *)
Definition stop_first_and_third : Runtime := runtime (tokens [6562; 10; 6562] 12).

(** A model whose third call of the transformer raises. *)
Definition faulty : Runtime := runtime (tokens_then_fault [1; 2] "out of memory").

(** A speaker that answers every text with itself as the payload, except
    the text [boom], on which it raises. *)
Definition speaker : SpeakerPipe.Speaker :=
  {| SpeakerPipe.World := nat;
     SpeakerPipe.Error := string;
     SpeakerPipe.synthesize := fun text calls =>
       (if Unicode.eqb text (Unicode.lit "boom") then Raise "out of memory" else Ok text,
        S calls);
     SpeakerPipe.str := Unicode.lit |}.

(** A speaker whose model raises on every text, with a message of two
    lines. *)
Definition newline : string := String (ascii_of_nat 10) EmptyString.

Definition two_line_error : SpeakerPipe.Speaker :=
  {| SpeakerPipe.World := nat;
     SpeakerPipe.Error := string;
     SpeakerPipe.synthesize := fun _ calls =>
       (Raise ("generation failed" ++ newline ++ "see the log")%string, S calls);
     SpeakerPipe.str := Unicode.lit |}.

(** Five lines of input as [sys.stdin] yields them, each with its newline:
    a request, a blank line, a request on which the synthesis raises, the
    sentinel, and a line after it. *)
Definition stdin_lines : list Unicode.unicode :=
  map Unicode.lit
    ["hello" ++ newline; "   " ++ newline; "boom" ++ newline;
     " EXIT " ++ newline; "after" ++ newline]%string.

(** Configurations for concrete runs. *)
Definition three_steps : SpeakerServer.SamplingConfig :=
  SpeakerServer.with_max_gen_len 3 SpeakerServer.default_config.

Definition five_steps : SpeakerServer.SamplingConfig :=
  SpeakerServer.with_max_gen_len 5 SpeakerServer.default_config.

(** Temperature zero, a negative [top_k] and a [top_p] above one. *)
Definition malformed : SpeakerServer.SamplingConfig :=
  {| SpeakerServer.temperature := 0;
     SpeakerServer.top_k := -1;
     SpeakerServer.top_p := 1.5;
     SpeakerServer.repetition_penalty := 1.2;
     SpeakerServer.max_gen_len := 2 |}.

(** Every filter at its disabled value. *)
Definition all_disabled : SpeakerServer.SamplingConfig :=
  {| SpeakerServer.temperature := 1;
     SpeakerServer.top_k := 0;
     SpeakerServer.top_p := 1;
     SpeakerServer.repetition_penalty := 1;
     SpeakerServer.max_gen_len := 2 |}.

End Scripted.


(** ** [src/speaker_server.py]: the [/speak] endpoint *)

Module SpeakEndpoint.
Import Unicode.

(** *** Python [str] methods *)

(** [s.startswith(p)] *)
Fixpoint startswith (s p : unicode) {struct p} : bool :=
  match p with
  | [] => true
  | a :: p' =>
      match s with
      | [] => false
      | b :: s' => N.eqb a b && startswith s' p'
      end
  end.

(** [needle in s] *)
Fixpoint contains (s needle : unicode) : bool :=
  startswith s needle
  || match s with
     | [] => false
     | _ :: s' => contains s' needle
     end.

(** [s.replace(old, new)] for a non-empty [old], left to right over
    occurrences that do not overlap; [skip] counts the characters of the
    occurrence just replaced that are still ahead. *)
Fixpoint replace_from (old new : unicode) (skip : nat) (s : unicode) : unicode :=
  match s with
  | [] => []
  | c :: s' =>
      match skip with
      | S k => replace_from old new k s'
      | O =>
          if startswith s old
          then new ++ replace_from old new (List.length old - 1) s'
          else c :: replace_from old new 0 s'
      end
  end.

Definition replace (s old new : unicode) : unicode := replace_from old new 0 s.

(** *** [split_text], lines 114-118 *)

(** The characters of the class [[.!,?;]]: U+002E, U+0021, U+002C, U+003F
    and U+003B. *)
Definition is_mark (c : char) : bool :=
  ((c =? 0x2E) || (c =? 0x21) || (c =? 0x2C) || (c =? 0x3F) || (c =? 0x3B))%N.

(** Where a left-to-right scan for [(?<=[.!,?;])\s+] stands: just after a
    mark, inside a separator (a run of whitespace that started after a
    mark), or anywhere else. *)
Inductive scan : Type := AfterMark | InSeparator | Elsewhere.

Definition after (c : char) : scan := if is_mark c then AfterMark else Elsewhere.

(** [re.split(r'(?<=[.!,?;])\s+', text)] from a scan state: the rest of the
    piece being read, and the pieces after it.  A separator starts at a
    whitespace character that follows a mark and takes the whole run of
    whitespace. *)
Fixpoint re_split_from (st : scan) (text : unicode) : unicode * list unicode :=
  match text with
  | [] => ([], [])
  | c :: text' =>
      match st with
      | InSeparator =>
          if isspace c then re_split_from InSeparator text'
          else let '(piece, pieces) := re_split_from (after c) text' in
               (c :: piece, pieces)
      | AfterMark =>
          if isspace c
          then let '(piece, pieces) := re_split_from InSeparator text' in
               ([], piece :: pieces)
          else let '(piece, pieces) := re_split_from (after c) text' in
               (c :: piece, pieces)
      | Elsewhere =>
          let '(piece, pieces) := re_split_from (after c) text' in
          (c :: piece, pieces)
      end
  end.

Definition re_split (text : unicode) : list unicode :=
  let '(piece, pieces) := re_split_from Elsewhere text in piece :: pieces.

(** Lines 114-118. *)
Definition split_text (text : unicode) : list unicode :=
  let chunks := re_split text in
  map strip
    (filter (fun c => negb (eqb (strip c) [])) chunks).

(** The characters of a text that are not whitespace, in order. *)
Fixpoint non_space (s : unicode) : unicode :=
  match s with
  | [] => []
  | c :: s' =>
      if isspace c then non_space s' else c :: non_space s'
  end.

(** The last character of a text. *)
Fixpoint last_char (s : unicode) : option char :=
  match s with
  | [] => None
  | [c] => Some c
  | _ :: s' => last_char s'
  end.

(** A text that does not start with whitespace. *)
Definition head_not_space (s : unicode) : Prop :=
  match s with
  | [] => True
  | c :: _ => isspace c = false
  end.

Definition ends_with_mark (s : unicode) : Prop :=
  exists c, last_char s = Some c /\ is_mark c = true.

(** *** The endpoint, lines 120-173 *)

(** What the endpoint calls: the file lock, the loaded model, numpy and
    soundfile. *)
Class Server : Type := {
  World : Type;             (* the lock file, the model, the device *)
  Error : Type;             (* the exceptions [except Exception] catches *)
  Sample : Type;            (* a sample of audio *)
  sr : Z;                   (* [cb.sr] *)
  silence : list Sample;    (* [np.zeros(int(cb.sr * 0.1))] *)
  (* [lock.__enter__()] and [lock.__exit__(...)] of the [FileLock] *)
  lock_acquire : World -> result Error unit * World;
  lock_release : World -> result Error unit * World;
  (* [cb.generate(chunk, top_k=50, temperature=0.1).squeeze().numpy()] *)
  generate : unicode -> World -> result Error (list Sample) * World;
  (* [sf.write(buffer, combined_wav, cb.sr, format='WAV')] and
     [base64.b64encode(buffer.getvalue()).decode('utf-8')] *)
  encode_wav : list Sample -> World -> result Error unicode * World;
  (* what [np.concatenate([])] raises *)
  concatenate_error : Error;
  str : Error -> unicode;    (* [str(e)] *)
  repr : list unicode -> unicode   (* the text of a list of strings in an f-string *)
}.

(** What a request leaves behind: the lines it printed and its calls of the
    lock and of the model, each with the exception it raised if it did. *)
Inductive event {Sv : Server} : Type :=
| Stdout (line : unicode)
| LockAcquire (raised : option Error)
| LockRelease (raised : option Error)
| Generate (chunk : unicode) (raised : option Error).

Notation "'ServerM'" := (M World event Error).

(** The dictionary the endpoint returns. *)
Inductive Response : Type :=
| StatusError (message : unicode)
| StatusOk (text audio_b64 : unicode) (sample_rate : Z).

Definition print {Sv : Server} (line : unicode) : ServerM unit := emit (Stdout line).

(** A call on the world, logged with its outcome by [ev]. *)
Definition call {Sv : Server} {A} (ev : option Error -> event)
  (f : World -> result Error A * World) : ServerM A :=
  fun w => let '(r, w') := f w in ([ev (raised_by r)], r, w').

(** [with lock: body]: the lock is released when the body returns and when
    it raises; an exception of the release replaces the outcome. *)
Definition with_lock {Sv : Server} {A} (body : ServerM A) : ServerM A :=
  call LockAcquire lock_acquire ;;
  (fun w =>
     let '(l1, r, w1) := body w in
     let '(l2, released, w2) := call LockRelease lock_release w1 in
     (l1 ++ l2, match released with Ok _ => r | Raise e => Raise e end, w2)).

(** [np.concatenate(all_wav_data)] *)
Definition concatenate {Sv : Server} (all_wav_data : list (list Sample))
  : result Error (list Sample) :=
  match all_wav_data with
  | [] => Raise concatenate_error
  | _ => Ok (List.concat all_wav_data)
  end.

(** Lines 123-125. *)
Definition sanitize (request_text : unicode) : unicode :=
  let text :=
    strip
      (replace (replace (replace request_text (lit "## Response") (lit ""))
                  (lit "##") (lit ""))
         (lit "**") (lit "")) in
  if (startswith text (lit "The system will") || startswith text (lit "Conversation"))%bool
  then lit "Hello. How can I help you?"
  else text.

(** Lines 141-155: [for i, chunk in enumerate(chunks): ...], at index [i]. *)
Fixpoint synthesize_chunks {Sv : Server} (n_chunks : nat) (i : nat)
  (chunks : list unicode) (all_wav_data : list (list Sample))
  : ServerM (list (list Sample)) :=
  match chunks with
  | [] => ret all_wav_data
  | chunk :: chunks' =>
      print (lit "DEBUG: Processing chunk " ++ lit (str_of_int (Z.of_nat i + 1))
             ++ lit "/" ++ lit (str_of_int (Z.of_nat n_chunks)) ++ lit ": " ++ chunk) ;;
      wav_data <- call (Generate chunk) (generate chunk) ;;
      let all_wav_data := all_wav_data ++ [wav_data] in
      let all_wav_data := all_wav_data ++ [silence] in
      synthesize_chunks n_chunks (S i) chunks' all_wav_data
  end.

(** Lines 120-173. *)
Definition speak {Sv : Server} (request_text : unicode) : ServerM Response :=
  let text := sanitize request_text in
  print (lit "Synthesizing: " ++ text) ;;
  let chunks := split_text text in
  match chunks with
  | [] => ret (StatusError (lit "No text to synthesize"))
  | _ =>
      print (lit "DEBUG: Split into "
             ++ lit (str_of_int (Z.of_nat (List.length chunks)))
             ++ lit " chunks: " ++ repr chunks) ;;
      let all_wav_data := [] in
      catch
        (all_wav_data <-
           with_lock (synthesize_chunks (List.length chunks) 0 chunks all_wav_data) ;;
         combined_wav <- lift (concatenate all_wav_data) ;;
         audio_b64 <- stateful (encode_wav combined_wav) ;;
         ret (StatusOk text audio_b64 sr))
        (fun e =>
           print (lit "Error: " ++ str e) ;;
           ret (StatusError (str e)))
  end.

(** The calls of the lock in a log, and the chunks given to the model. *)
Definition is_lock_event {Sv : Server} (ev : event) : bool :=
  match ev with
  | LockAcquire _ | LockRelease _ => true
  | _ => false
  end.

Definition lock_events {Sv : Server} (log : list event) : list event :=
  filter is_lock_event log.

(** A monitor of the lock over a log, from the state [held]: the lock is
    taken only when free and released only when held, the model is called
    only while the lock is held, and the lock is free at the end.  A
    release is taken to free the lock even when it raises. *)
Fixpoint lock_respected {Sv : Server} (held : bool) (log : list event) : bool :=
  match log with
  | [] => negb held
  | Stdout _ :: log' => lock_respected held log'
  | LockAcquire None :: log' => negb held && lock_respected true log'
  | LockAcquire (Some _) :: log' => negb held && lock_respected false log'
  | LockRelease _ :: log' => held && lock_respected false log'
  | Generate _ _ :: log' => held && lock_respected held log'
  end.

(** The events of the body of the [with] block. *)
Definition is_body_event {Sv : Server} (ev : event) : bool :=
  match ev with
  | Stdout _ | Generate _ _ => true
  | _ => false
  end.

(** A log in which no call of the model raised. *)
Definition no_fault {Sv : Server} (log : list event) : Prop :=
  forall chunk e, ~ In (Generate chunk (Some e)) log.

Fixpoint generated {Sv : Server} (log : list event) : list unicode :=
  match log with
  | [] => []
  | Generate chunk _ :: log' => chunk :: generated log'
  | _ :: log' => generated log'
  end.

End SpeakEndpoint.

(** ** A scripted server, for concrete requests *)

Module ScriptedServer.
Import Unicode.

(** A server whose model turns a chunk into as many samples as the chunk
    has characters and raises on the chunk [boom.]; the world counts the
    calls. *)
Definition server : SpeakEndpoint.Server :=
  {| SpeakEndpoint.World := nat;
     SpeakEndpoint.Error := unicode;
     SpeakEndpoint.Sample := Z;
     SpeakEndpoint.sr := 24000;
     SpeakEndpoint.silence := [0; 0];
     SpeakEndpoint.lock_acquire := fun w => (Ok tt, S w);
     SpeakEndpoint.lock_release := fun w => (Ok tt, S w);
     SpeakEndpoint.generate := fun chunk w =>
       (if eqb chunk (lit "boom.") then Raise (lit "out of memory")
        else Ok (repeat 1 (List.length chunk)), S w);
     SpeakEndpoint.encode_wav := fun wav w =>
       (Ok (lit (str_of_int (Z.of_nat (List.length wav)))), S w);
     SpeakEndpoint.concatenate_error := lit "need at least one array to concatenate";
     SpeakEndpoint.str := fun e => e;
     SpeakEndpoint.repr := fun chunks =>
       List.concat (map (fun chunk => chunk ++ lit "|") chunks) |}.

End ScriptedServer.

(** ** Vocabulary for the logs of the two decoding loops *)

Module DecoderLog.

(** The tokens embedded and given to the transformer after the prefill, in
    the order of the calls. *)
Fixpoint fed {R : Runtime} (log : list event) : list Z :=
  match log with
  | [] => []
  | Tfmr (SpeechEmb token) _ :: log' => token :: fed log'
  | _ :: log' => fed log'
  end.

End DecoderLog.

(** ** [src/analyze_onnx.py] *)

Module AnalyzeOnnx.

(** A node of an ONNX graph, as far as the script reads it. *)
Record NodeProto : Type := {
  op_type : string;
  name : string;
  input : list string;
  output : list string
}.

(** The graph of a loaded model. *)
Record GraphProto : Type := {
  graph_input : list string;    (* the names of [graph.input] *)
  graph_output : list string;   (* the names of [graph.output] *)
  node : list NodeProto
}.

(** A Python [dict] from strings to ints: its items in insertion order. *)
Definition dict : Type := list (string * nat).

(** [d.get(k, default)] *)
Fixpoint get (d : dict) (k : string) (default : nat) : nat :=
  match d with
  | [] => default
  | (k', v) :: d' => if String.eqb k' k then v else get d' k default
  end.

(** [d[k] = v]: a key that is present keeps its place, a new key goes to
    the end. *)
Fixpoint set (d : dict) (k : string) (v : nat) : dict :=
  match d with
  | [] => [(k, v)]
  | (k', v') :: d' =>
      if String.eqb k' k then (k', v) :: d' else (k', v') :: set d' k v
  end.

(** Lines 11-13. *)
Definition count_ops (nodes : list NodeProto) : dict :=
  let op_counts := [] in
  fold_left
    (fun op_counts node =>
       set op_counts (op_type node) (get op_counts (op_type node) 0 + 1)%nat)
    nodes op_counts.

(** [sorted(items, key=lambda x: x[1], reverse=True)]: the items from the
    largest count to the smallest, items of equal count in the order they
    had (Python's sort is stable, also when reversed). *)
Fixpoint insert (x : string * nat) (l : list (string * nat)) : list (string * nat) :=
  match l with
  | [] => [x]
  | y :: l' => if (snd x <? snd y)%nat then y :: insert x l' else x :: y :: l'
  end.

Definition sorted_by_count (items : list (string * nat)) : list (string * nat) :=
  fold_right insert [] items.

(** What the script calls: [onnx.load], and the text of a list of strings
    in an f-string. *)
Class Onnx : Type := {
  World : Type;
  Error : Type;
  load : string -> World -> result Error GraphProto * World;
  repr : list string -> string
}.

Notation "'OnnxM'" := (M World string Error).

(** The loop of lines 16-17 over the sorted items. *)
Fixpoint print_counts {O : Onnx} (items : list (string * nat)) : OnnxM unit :=
  match items with
  | [] => ret tt
  | (op, count) :: items' =>
      emit ("  " ++ op ++ ": " ++ str_of_int (Z.of_nat count))%string ;;
      print_counts items'
  end.

(** The loop of lines 20-22 over the nodes [graph.node[i]] of its range. *)
Fixpoint print_nodes {O : Onnx} (nodes : list NodeProto) : OnnxM unit :=
  match nodes with
  | [] => ret tt
  | node :: nodes' =>
      emit ("  " ++ op_type node ++ ": " ++ name node ++ " (Inputs: "
            ++ repr (input node) ++ ", Outputs: " ++ repr (output node) ++ ")")%string ;;
      print_nodes nodes'
  end.

(** Lines 3-22; the log is stdout, one entry for each [print]. *)
Definition analyze_model {O : Onnx} (path : string) : OnnxM unit :=
  graph <- stateful (load path) ;;
  emit ("📊 Analyzing model: " ++ path)%string ;;
  emit ("Inputs: " ++ repr (graph_input graph))%string ;;
  emit ("Outputs: " ++ repr (graph_output graph))%string ;;
  let op_counts := count_ops (node graph) in
  emit (Scripted.newline ++ "Op Counts:")%string ;;
  print_counts (sorted_by_count op_counts) ;;
  emit (Scripted.newline ++ "Graph Structure (Top 50 nodes):")%string ;;
  print_nodes (firstn (Nat.min 50 (List.length (node graph))) (node graph)).

(** The order of the printed counts: never increasing. *)
Definition count_ge (a b : string * nat) : Prop := (snd b <= snd a)%nat.

End AnalyzeOnnx.

(** ** A loader for the examples of the histogram *)

Module ScriptedOnnx.
Import AnalyzeOnnx.

Definition gather (name : string) : NodeProto :=
  {| op_type := "Gather"; name := name; input := ["x"]; output := ["y"] |}.

Definition add (name : string) : NodeProto :=
  {| op_type := "Add"; name := name; input := ["y"; "b"]; output := ["z"] |}.

Definition matmul (name : string) : NodeProto :=
  {| op_type := "MatMul"; name := name; input := ["z"; "w"]; output := ["out"] |}.

Definition decoder : GraphProto :=
  {| graph_input := ["x"];
     graph_output := ["out"];
     node := [add "a0"; gather "g0"; matmul "m0"; gather "g1"] |}.

(** Every path but [missing.onnx] holds the same small graph; the world
    counts the files opened. *)
#[local] Instance onnx : Onnx :=
  {| World := nat;
     Error := string;
     load := fun path opened =>
       if String.eqb path "missing.onnx"
       then (Raise "No such file", opened)
       else (Ok decoder, Datatypes.S opened);
     repr := String.concat ", " |}.

End ScriptedOnnx.

(** ** [src/speak.py]: say a text from the command line *)

Module Speak.

(** What the script calls: torch, the model, [tempfile], soundfile, the
    player and [os.remove]. *)
Class Player : Type := {
  World : Type;             (* the device, the file system, the player *)
  Error : Type;             (* the exceptions [except Exception] catches *)
  Model : Type;
  Tensor : Type;
  Array : Type;
  mps_is_available : World -> bool;     (* [torch.backends.mps.is_available()] *)
  (* [ChatterboxTTS.from_pretrained(device=device)] *)
  from_pretrained : string -> World -> result Error Model * World;
  (* [cb.generate(text)] *)
  generate : Model -> string -> World -> result Error Tensor * World;
  (* [wav_tensor.squeeze().cpu().numpy()] *)
  numpy : Tensor -> result Error Array;
  sr : Model -> Z;                      (* [cb.sr] *)
  (* [with tempfile.NamedTemporaryFile(suffix=".wav", delete=False) as tf:
        temp_path = tf.name] *)
  named_temporary_file : World -> result Error string * World;
  (* [sf.write(temp_path, wav_data, cb.sr)] *)
  sf_write : string -> Array -> Z -> World -> result Error unit * World;
  (* [subprocess.run(["afplay", temp_path])] *)
  afplay : string -> World -> result Error unit * World;
  (* [os.remove(temp_path)] *)
  remove : string -> World -> result Error unit * World;
  str : Error -> string                 (* [str(e)] *)
}.

(** What a run leaves behind: the lines it printed, the text given to the
    model, the temporary file it created, and its calls on that file, each
    with the exception it raised if it did. *)
Inductive event {P : Player} : Type :=
| Stdout (line : string)
| Generate (text : string) (raised : option Error)
| Created (temp_path : string)
| Written (temp_path : string) (raised : option Error)
| Played (temp_path : string) (raised : option Error)
| Removed (temp_path : string) (raised : option Error).

Notation "'SpeakM'" := (M World event Error).

Definition print {P : Player} (line : string) : SpeakM unit := emit (Stdout line).

(** A call on the world, logged with its outcome by [ev]. *)
Definition call {P : Player} {A} (ev : option Error -> event)
  (f : World -> result Error A * World) : SpeakM A :=
  fun w => let '(r, w') := f w in ([ev (raised_by r)], r, w').

(** Lines 9-43, on [sys.argv]. *)
Definition main {P : Player} (argv : list string) : SpeakM unit :=
  if (List.length argv <? 2)%nat then
    print "Usage: python speak.py <text>"
  else
    let text := String.concat " " (tl argv) in
    device <- (fun w => ([], Ok (if mps_is_available w then "mps" else "cpu")%string, w)) ;;
    print ("Using device: " ++ device)%string ;;
    catch
      (cb <- stateful (from_pretrained device) ;;
       wav_tensor <- call (Generate text) (generate cb text) ;;
       wav_data <- lift (numpy wav_tensor) ;;
       temp_path <- stateful named_temporary_file ;;
       emit (Created temp_path) ;;
       call (Written temp_path) (sf_write temp_path wav_data (sr cb)) ;;
       call (Played temp_path) (afplay temp_path) ;;
       call (Removed temp_path) (remove temp_path))
      (fun e => print ("Error: " ++ str e)%string).

End Speak.

(** ** A machine for the examples of [speak.py] *)

Module ScriptedPlayer.
Import Speak.

(** The world is the list of the files that exist.  The player is missing
    on the machine [no_player]. *)
Definition player (has_afplay : bool) : Player :=
  {| World := list string;
     Error := string;
     Model := unit;
     Tensor := string;
     Array := string;
     mps_is_available := fun _ => false;
     from_pretrained := fun _ files => (Ok tt, files);
     generate := fun _ text files => (Ok text, files);
     numpy := fun wav_tensor => Ok wav_tensor;
     sr := fun _ => 24000%Z;
     named_temporary_file := fun files => (Ok "/tmp/tmp0.wav"%string, "/tmp/tmp0.wav"%string :: files);
     sf_write := fun _ _ _ files => (Ok tt, files);
     afplay := fun _ files =>
       if has_afplay then (Ok tt, files)
       else (Raise "No such file or directory: 'afplay'"%string, files);
     remove := fun temp_path files =>
       (Ok tt, filter (fun f => negb (String.eqb f temp_path)) files);
     str := fun e => e |}.

Definition mac : Player := player true.
Definition no_player : Player := player false.

End ScriptedPlayer.

(* ===================================================================== *)
(** * Part II: theorems                                                   *)
(* ===================================================================== *)

(** ** Comparisons of binary64 floats *)

Module FloatOrder.

Lemma SFcompare_swap (x y : spec_float) :
  SFcompare y x = option_map CompOpp (SFcompare x y).
Proof.
  destruct x as [sx | sx | | sx mx ex], y as [sy | sy | | sy my ey]; simpl;
    try reflexivity;
    try (destruct sx; reflexivity);
    try (destruct sy; reflexivity);
    try (destruct sx, sy; reflexivity).
  change (Pos.compare_cont Eq my mx) with (my ?= mx)%positive.
  change (Pos.compare_cont Eq mx my) with (mx ?= my)%positive.
  rewrite (Z.compare_antisym ey ex), (Pos.compare_antisym my mx).
  destruct sx, sy; simpl; try reflexivity;
    destruct (ey ?= ex)%Z; simpl; try reflexivity;
    destruct (my ?= mx)%positive; reflexivity.
Qed.

Lemma ltb_asym (x y : float) : (x <? y)%float = true -> (y <? x)%float = false.
Proof.
  rewrite !ltb_spec. unfold SFltb. rewrite (SFcompare_swap (Prim2SF x) (Prim2SF y)).
  destruct (SFcompare (Prim2SF x) (Prim2SF y)) as [[ | | ] | ]; simpl; congruence.
Qed.

Lemma leb_not_ltb (x y : float) : (x <=? y)%float = true -> (y <? x)%float = false.
Proof.
  rewrite leb_spec, ltb_spec. unfold SFleb, SFltb. rewrite (SFcompare_swap (Prim2SF x) (Prim2SF y)).
  destruct (SFcompare (Prim2SF x) (Prim2SF y)) as [[ | | ] | ]; simpl; congruence.
Qed.

Lemma eqb_not_ltb (x y : float) : (x =? y)%float = true -> (x <? y)%float = false.
Proof.
  rewrite eqb_spec, ltb_spec. unfold SFeqb, SFltb.
  destruct (SFcompare (Prim2SF x) (Prim2SF y)) as [[ | | ] | ]; simpl; congruence.
Qed.

End FloatOrder.

(** ** Running a computation, step by step *)

Module Run.

Section Steps.
Context {S Ev E : Type}.

Lemma run_bind {A B} (m : M S Ev E A) (k : A -> M S Ev E B) (s : S) :
  bind m k s =
  match m s with
  | (l1, Ok a, s1) => let '(l2, r, s2) := k a s1 in (l1 ++ l2, r, s2)
  | (l1, Raise e, s1) => (l1, Raise e, s1)
  end.
Proof. reflexivity. Qed.

Lemma run_emit_then {B} (ev : Ev) (k : unit -> M S Ev E B) (s : S) :
  bind (emit ev) k s = let '(l, r, s') := k tt s in (ev :: l, r, s').
Proof. rewrite run_bind. unfold emit. destruct (k tt s) as [[l r] s']. reflexivity. Qed.

Lemma run_bind_ext {A B} (m m' : M S Ev E A) (k k' : A -> M S Ev E B) (s : S) :
  (forall s0, m s0 = m' s0) ->
  (forall a s0, k a s0 = k' a s0) ->
  bind m k s = bind m' k' s.
Proof.
  intros Hm Hk. rewrite !run_bind, Hm.
  destruct (m' s) as [[l1 [a | e]] s1]; [ | reflexivity].
  now rewrite Hk.
Qed.

(** *** Computations that leave the state alone *)

Lemma stateless_ret {A} (a : A) : stateless (ret a : M S Ev E A).
Proof. exists [], (Ok a). reflexivity. Qed.

Lemma stateless_emit (ev : Ev) : stateless (emit ev : M S Ev E unit).
Proof. exists [ev], (Ok tt). reflexivity. Qed.

Lemma stateless_lift {A} (r : result E A) : stateless (lift r : M S Ev E A).
Proof. exists [], r. reflexivity. Qed.

Lemma stateless_raise {A} (e : E) : stateless (raise e : M S Ev E A).
Proof. exists [], (Raise e). reflexivity. Qed.

Lemma stateless_bind {A B} (m : M S Ev E A) (k : A -> M S Ev E B) :
  stateless m -> (forall a, stateless (k a)) -> stateless (bind m k).
Proof.
  intros (l1 & r1 & Hm) Hk. destruct r1 as [a | e].
  - destruct (Hk a) as (l2 & r2 & Hka).
    exists (l1 ++ l2), r2. intros s. rewrite run_bind, Hm, Hka. reflexivity.
  - exists l1, (Raise e). intros s. rewrite run_bind, Hm. reflexivity.
Qed.

(** *** Properties of the returned value *)

Lemma returns_ret {A} (a : A) (P : A -> Prop) :
  P a -> returns (ret a : M S Ev E A) P.
Proof. intros HP s b H. cbv in H. congruence. Qed.

Lemma returns_bind {A B} (m : M S Ev E A) (k : A -> M S Ev E B)
  (Q : A -> Prop) (P : B -> Prop) :
  returns m Q -> (forall a, Q a -> returns (k a) P) -> returns (bind m k) P.
Proof.
  intros Hm Hk s b. rewrite run_bind.
  destruct (m s) as [[l1 [a | e]] s1] eqn:Hms.
  - specialize (Hm s a). rewrite Hms in Hm. specialize (Hm eq_refl).
    specialize (Hk a Hm s1 b).
    destruct (k a s1) as [[l2 r] s2]. exact Hk.
  - discriminate.
Qed.

Lemma returns_weaken {A} (m : M S Ev E A) (P Q : A -> Prop) :
  returns m P -> (forall a, P a -> Q a) -> returns m Q.
Proof. intros Hm HPQ s a H. apply HPQ, (Hm s a H). Qed.

Lemma returns_any {A} (m : M S Ev E A) : returns m (fun _ => True).
Proof. intros s a _. exact I. Qed.

End Steps.

End Run.

(** ** The sampling loop of [src/speaker_server.py] *)

Module ServerFacts.
Import SpeakerServer.

Section Pipeline.
Context {R : Runtime}.

(** Lines 42-50 construct the enabled processors in the order of the four
    [if]s, touch neither stdout nor the generator, and raise what the first
    failing constructor raises. *)
Lemma build_logits_processors_run (c : SamplingConfig) (r : Rng) :
  build_logits_processors c r = ([], construct (source_order c), r).
Proof.
  unfold build_logits_processors, source_order, temperature_stage, top_k_stage,
    top_p_stage, penalty_stage, temperature_enabled, top_k_enabled,
    top_p_enabled, penalty_enabled.
  destruct ((0 <? temperature c)%float && negb (temperature c =? 1)%float)%bool;
    destruct (0 <? top_k c)%Z;
    destruct (top_p c <? 1)%float;
    destruct (negb (repetition_penalty c =? 1)%float);
    cbn; unfold new;
    repeat match goal with
           | |- context [init_error ?p] => destruct (init_error p); cbn
           end;
    reflexivity.
Qed.

Lemma logits_processors_call_app (ps qs : list LogitsProcessor) ids scores :
  logits_processors_call (ps ++ qs) ids scores =
  logits_processors_call qs ids (logits_processors_call ps ids scores).
Proof. unfold logits_processors_call. apply fold_left_app. Qed.

Lemma construct_ok (ps qs : list LogitsProcessor) :
  construct ps = Ok qs -> qs = ps.
Proof.
  revert qs. induction ps as [ | p ps IH]; intros qs H; simpl in H.
  - congruence.
  - destruct (init_error p); [discriminate | ].
    destruct (construct ps) as [qs' | e]; [ | discriminate].
    injection H as <-. f_equal. apply IH. reflexivity.
Qed.

End Pipeline.

Section Loop.
Context {R : Runtime}.

(** *** The tokens the loop adds *)

(** Every token the loop appends was compared with the stop token first, and
    each of the [n] iterations appends at most one. *)
Lemma decode_loop_returns c ps (n : nat) :
  forall i generated current past,
    returns (decode_loop c ps n i generated current past)
      (fun tokens =>
         exists more,
           tokens = generated ++ more
           /\ (List.length more <= n)%nat
           /\ Forall (fun t => t <> stop_speech_token) more).
Proof.
  induction n as [ | n IH]; intros i generated current past; simpl.
  - apply (Run.returns_bind _ _ (fun _ => True)); [apply Run.returns_any | ].
    intros _ _. apply Run.returns_ret. exists []. rewrite app_nil_r. auto.
  - apply (Run.returns_bind _ _ (fun _ => True)); [apply Run.returns_any | ].
    intros [past' logits] _.
    apply (Run.returns_bind _ _ (fun _ => True)); [apply Run.returns_any | ].
    intros next _.
    destruct (next =? stop_speech_token)%Z eqn:Hstop.
    + apply (Run.returns_bind _ _ (fun _ => True)); [apply Run.returns_any | ].
      intros _ _. apply Run.returns_ret. exists []. rewrite app_nil_r.
      repeat split; [simpl; lia | constructor].
    + eapply Run.returns_weaken; [apply IH | ].
      intros tokens (more & -> & Hlen & Hall).
      exists (next :: more). rewrite <- app_assoc. simpl.
      repeat split; [lia | ].
      constructor; [apply Z.eqb_neq, Hstop | exact Hall].
Qed.

(** What [t3_inference_turbo_optimized] can return: the token sampled from
    the prefill scores, whatever it is, then at most [max_gen_len] tokens,
    none of them the stop token. *)
Lemma t3_inference_turbo_optimized_returns t3_cond text_tokens c :
  returns (t3_inference_turbo_optimized t3_cond text_tokens c)
    (fun tokens =>
       exists first more,
         tokens = first :: more
         /\ (List.length more <= Z.to_nat (max_gen_len c))%nat
         /\ Forall (fun t => t <> stop_speech_token) more).
Proof.
  unfold t3_inference_turbo_optimized.
  apply (Run.returns_bind _ _ (fun _ => True)); [apply Run.returns_any | ].
  intros _ _.
  apply (Run.returns_bind _ _ (fun _ => True)); [apply Run.returns_any | ].
  intros ps _.
  apply (Run.returns_bind _ _ (fun _ => True)); [apply Run.returns_any | ].
  intros [past logits] _.
  apply (Run.returns_bind _ _ (fun _ => True)); [apply Run.returns_any | ].
  intros first _.
  eapply Run.returns_weaken; [apply decode_loop_returns | ].
  intros tokens (more & -> & Hlen & Hall). exists first, more. auto.
Qed.

(** When the sampler never draws the stop token, every iteration appends
    a token. *)
Lemma sample_returns (logits : Logits) :
  never_samples_stop ->
  returns (sample logits) (fun token => token <> stop_speech_token).
Proof.
  intros Hnever s token H. unfold sample, stateful in H.
  destruct (multinomial (softmax logits) s) as [[t | e] s'] eqn:Hdraw;
    cbv in H; [ | discriminate].
  injection H as <-. exact (Hnever _ _ _ _ Hdraw).
Qed.

Lemma decode_loop_never_stop c ps (n : nat) :
  never_samples_stop ->
  forall i generated current past,
    returns (decode_loop c ps n i generated current past)
      (fun tokens => List.length tokens = (List.length generated + n)%nat).
Proof.
  intros Hnever.
  induction n as [ | n IH]; intros i generated current past; simpl.
  - apply (Run.returns_bind _ _ (fun _ => True)); [apply Run.returns_any | ].
    intros _ _. apply Run.returns_ret. lia.
  - apply (Run.returns_bind _ _ (fun _ => True)); [apply Run.returns_any | ].
    intros [past' logits] _.
    apply (Run.returns_bind _ _ (fun token => token <> stop_speech_token));
      [now apply sample_returns | ].
    intros next Hnext.
    destruct (Z.eqb_spec next stop_speech_token) as [Heq | _]; [contradiction | ].
    eapply Run.returns_weaken; [apply IH | ].
    intros tokens ->. rewrite length_app. simpl. lia.
Qed.

(** With such a sampler a run that returns has made all its iterations:
    it returns [max_gen_len + 1] tokens. *)
Lemma never_stop_returns_one_more t3_cond text_tokens c :
  never_samples_stop ->
  returns (t3_inference_turbo_optimized t3_cond text_tokens c)
    (fun tokens => List.length tokens = S (Z.to_nat (max_gen_len c))).
Proof.
  intros Hnever. unfold t3_inference_turbo_optimized.
  apply (Run.returns_bind _ _ (fun _ => True)); [apply Run.returns_any | ].
  intros _ _.
  apply (Run.returns_bind _ _ (fun _ => True)); [apply Run.returns_any | ].
  intros ps _.
  apply (Run.returns_bind _ _ (fun _ => True)); [apply Run.returns_any | ].
  intros [past logits] _.
  apply (Run.returns_bind _ _ (fun _ => True)); [apply Run.returns_any | ].
  intros first _.
  eapply Run.returns_weaken; [now apply decode_loop_never_stop | ].
  intros tokens ->. reflexivity.
Qed.

(** *** What a run reads of its configuration *)

Lemma decode_loop_config c c' ps (n : nat) :
  max_gen_len c = max_gen_len c' ->
  forall i generated current past s,
    decode_loop c ps n i generated current past s
    = decode_loop c' ps n i generated current past s.
Proof.
  intros Hmax. induction n as [ | n IH]; intros i generated current past s; simpl.
  - now rewrite Hmax.
  - apply Run.run_bind_ext; [reflexivity | ]. intros [past' logits] s1.
    apply Run.run_bind_ext; [reflexivity | ]. intros next s2.
    destruct (next =? stop_speech_token)%Z; [reflexivity | apply IH].
Qed.

(** A run depends on its configuration through the processors it enables
    and through [max_gen_len] only. *)
Lemma t3_inference_turbo_optimized_config t3_cond text_tokens c c' (s : Rng) :
  source_order c = source_order c' ->
  max_gen_len c = max_gen_len c' ->
  t3_inference_turbo_optimized t3_cond text_tokens c s
  = t3_inference_turbo_optimized t3_cond text_tokens c' s.
Proof.
  intros Horder Hmax. unfold t3_inference_turbo_optimized. rewrite Hmax.
  apply Run.run_bind_ext; [reflexivity | ]. intros _ s1.
  apply Run.run_bind_ext.
  { intros s0. now rewrite !build_logits_processors_run, Horder. }
  intros ps s2.
  apply Run.run_bind_ext; [reflexivity | ]. intros [past logits] s3.
  apply Run.run_bind_ext; [reflexivity | ]. intros first s4.
  now apply decode_loop_config.
Qed.

(** Once the processors are constructed, the transformer is called: the
    log of the run starts with the debug line and the prefill. *)
Lemma t3_inference_turbo_optimized_prefills t3_cond text_tokens c (s : Rng) ps :
  construct (source_order c) = Ok ps ->
  exists rest,
    log_of (t3_inference_turbo_optimized t3_cond text_tokens c s)
    = Stdout ("DEBUG: Starting inference with max_gen_len="
              ++ str_of_int (max_gen_len c)
              ++ ", text_tokens shape=" ++ shape_str text_tokens)
      :: Tfmr (Embeds text_tokens [start_speech_token])
              (raised_by (prefill t3_cond text_tokens [start_speech_token]
                            (Some 0%float)))
      :: rest.
Proof.
  intros Hps. unfold t3_inference_turbo_optimized.
  unfold print at 1.
  rewrite Run.run_emit_then, Run.run_bind, build_logits_processors_run, Hps.
  rewrite Run.run_bind. unfold tfmr at 1. rewrite Run.run_emit_then.
  unfold lift at 1.
  destruct (prefill t3_cond text_tokens [start_speech_token] (Some 0%float))
    as [[past logits] | e]; simpl.
  - match goal with
    | |- context [bind_ ?m ?k ?s0] => destruct (bind_ m k s0) as [[l r] s']
    end.
    eexists. reflexivity.
  - eexists. reflexivity.
Qed.

(** *** Exceptions of the transformer *)

Lemma fault_free_nil : fault_free [].
Proof. intros inputs e []. Qed.

Lemma fault_free_app (l1 l2 : list event) :
  fault_free l1 -> fault_free l2 -> fault_free (l1 ++ l2).
Proof.
  intros H1 H2 inputs e Hin. apply in_app_or in Hin as [Hin | Hin].
  - exact (H1 _ _ Hin).
  - exact (H2 _ _ Hin).
Qed.

Lemma disciplined_quiet {A} (x : list event * result Exn A * Rng) :
  log_of x = [] -> disciplined x.
Proof.
  intros H. unfold disciplined. rewrite H. destruct (result_of x).
  - apply fault_free_nil.
  - exists []. split; [apply fault_free_nil | now left].
Qed.

Lemma disciplined_bind {A B} (m : T3M A) (k : A -> T3M B) :
  (forall s, disciplined (m s)) ->
  (forall a s, disciplined (k a s)) ->
  forall s, disciplined (bind m k s).
Proof.
  intros Hm Hk s. rewrite Run.run_bind.
  specialize (Hm s).
  destruct (m s) as [[l1 [a | e]] s1].
  - specialize (Hk a s1). destruct (k a s1) as [[l2 [b | e]] s2].
    + apply fault_free_app; [exact Hm | exact Hk].
    + destruct Hk as (before & Hfree & Hlog). unfold log_of in Hlog. simpl in Hlog.
      exists (l1 ++ before). split; [apply fault_free_app; assumption | ].
      unfold log_of. simpl. destruct Hlog as [Hlog | (inputs & Hlog)]; subst l2.
      * now left.
      * right. exists inputs. now rewrite app_assoc.
  - exact Hm.
Qed.

Lemma disciplined_print (line : string) (s : Rng) : disciplined (print line s).
Proof. intros inputs e [H | []]. discriminate. Qed.

Lemma disciplined_tfmr inputs (r : result Exn (Cache * Logits)) (s : Rng) :
  disciplined (tfmr inputs r s).
Proof.
  destruct r as [x | e]; cbv - [In app].
  - intros inputs' e' [H | []]. discriminate.
  - exists []. split; [apply fault_free_nil | ]. right. exists inputs. reflexivity.
Qed.

Lemma disciplined_sample (logits : Logits) (s : Rng) : disciplined (sample logits s).
Proof.
  apply disciplined_quiet. unfold sample, stateful.
  destruct (multinomial (softmax logits) s). reflexivity.
Qed.

Lemma disciplined_ret {A} (a : A) (s : Rng) : disciplined ((ret a : T3M A) s).
Proof. apply disciplined_quiet. reflexivity. Qed.

(** A step whose call of the transformer raises: the loop raises the same
    exception at once, after that one call. *)
Lemma decode_loop_fault c ps (n : nat) i generated current past (s : Rng) (e : Exn) :
  decode past current = Raise e ->
  decode_loop c ps (S n) i generated current past s
  = ([Tfmr (SpeechEmb current) (Some e)], Raise e, s).
Proof.
  intros H. cbn [decode_loop]. rewrite H.
  rewrite Run.run_bind. reflexivity.
Qed.

(** A prefill that raises: the run raises the same exception, after the
    debug line and that one call. *)
Lemma prefill_fault t3_cond text_tokens c (s : Rng) (e : Exn) ps :
  construct (source_order c) = Ok ps ->
  prefill t3_cond text_tokens [start_speech_token] (Some 0%float) = Raise e ->
  t3_inference_turbo_optimized t3_cond text_tokens c s
  = ([Stdout ("DEBUG: Starting inference with max_gen_len="
              ++ str_of_int (max_gen_len c)
              ++ ", text_tokens shape=" ++ shape_str text_tokens);
      Tfmr (Embeds text_tokens [start_speech_token]) (Some e)],
     Raise e, s).
Proof.
  intros Hps H. unfold t3_inference_turbo_optimized. unfold print at 1.
  rewrite Run.run_emit_then, Run.run_bind, build_logits_processors_run, Hps, H.
  rewrite Run.run_bind. reflexivity.
Qed.

Lemma disciplined_decode_loop c ps (n : nat) :
  forall i generated current past s,
    disciplined (decode_loop c ps n i generated current past s).
Proof.
  induction n as [ | n IH]; intros i generated current past; simpl.
  - apply disciplined_bind; [apply disciplined_print | ].
    intros _. apply disciplined_ret.
  - apply disciplined_bind; [apply disciplined_tfmr | ].
    intros [past' logits].
    apply disciplined_bind; [apply disciplined_sample | ].
    intros next. destruct (next =? stop_speech_token)%Z.
    + apply disciplined_bind; [apply disciplined_print | ].
      intros _. apply disciplined_ret.
    + apply IH.
Qed.

Lemma disciplined_t3_inference_turbo_optimized t3_cond text_tokens c (s : Rng) :
  disciplined (t3_inference_turbo_optimized t3_cond text_tokens c s).
Proof.
  revert s. unfold t3_inference_turbo_optimized.
  apply disciplined_bind; [apply disciplined_print | ]. intros _.
  apply disciplined_bind.
  { intros s. apply disciplined_quiet.
    rewrite build_logits_processors_run. reflexivity. }
  intros ps.
  apply disciplined_bind; [apply disciplined_tfmr | ]. intros [past logits].
  apply disciplined_bind; [apply disciplined_sample | ]. intros first.
  apply disciplined_decode_loop.
Qed.

(** *** The loop, outcome by outcome *)

(** One iteration of the loop of lines 68-87, outcome by outcome. *)
Lemma decode_loop_step c ps (n : nat) i generated current past (s : Rng) :
  decode_loop c ps (S n) i generated current past s =
  match decode past current with
  | Raise e => ([Tfmr (SpeechEmb current) (Some e)], Raise e, s)
  | Ok (past', logits) =>
      match multinomial (softmax (logits_processors_call ps generated logits)) s with
      | (Raise e, s1) => ([Tfmr (SpeechEmb current) None], Raise e, s1)
      | (Ok next, s1) =>
          if (next =? stop_speech_token)%Z
          then ([Tfmr (SpeechEmb current) None;
                 Stdout ("DEBUG: Hit STOP_TOKEN at step " ++ str_of_int i)],
                Ok generated, s1)
          else
            let '(l, r, s2) :=
              decode_loop c ps n (i + 1) (generated ++ [next]) next past' s1 in
            (Tfmr (SpeechEmb current) None :: l, r, s2)
      end
  end.
Proof.
  cbn [decode_loop]. rewrite Run.run_bind. unfold tfmr at 1.
  rewrite Run.run_emit_then. unfold lift at 1.
  destruct (decode past current) as [[past' logits] | e]; [ | reflexivity].
  cbn [raised_by]. rewrite Run.run_bind. unfold sample at 1, stateful at 1.
  destruct (multinomial (softmax (logits_processors_call ps generated logits)) s)
    as [[next | e] s1]; [ | reflexivity].
  destruct (next =? stop_speech_token)%Z.
  - unfold print. rewrite Run.run_emit_then. reflexivity.
  - destruct (decode_loop c ps n (i + 1) (generated ++ [next]) next past' s1)
      as [[l r] s2].
    reflexivity.
Qed.

(** A run of [t3_inference_turbo_optimized], outcome by outcome. *)
Lemma t3_inference_turbo_optimized_run t3_cond text_tokens c (s : Rng) :
  t3_inference_turbo_optimized t3_cond text_tokens c s =
  let line :=
    Stdout ("DEBUG: Starting inference with max_gen_len=" ++ str_of_int (max_gen_len c)
            ++ ", text_tokens shape=" ++ shape_str text_tokens) in
  match construct (source_order c) with
  | Raise e => ([line], Raise e, s)
  | Ok ps =>
      match prefill t3_cond text_tokens [start_speech_token] (Some 0%float) with
      | Raise e =>
          ([line; Tfmr (Embeds text_tokens [start_speech_token]) (Some e)], Raise e, s)
      | Ok (past, logits) =>
          match multinomial
                  (softmax (logits_processors_call ps [start_speech_token] logits)) s
          with
          | (Raise e, s1) =>
              ([line; Tfmr (Embeds text_tokens [start_speech_token]) None], Raise e, s1)
          | (Ok first, s1) =>
              let '(l, r, s2) :=
                decode_loop c ps (Z.to_nat (max_gen_len c)) 0 [first] first past s1 in
              (line :: Tfmr (Embeds text_tokens [start_speech_token]) None :: l, r, s2)
          end
      end
  end.
Proof.
  unfold t3_inference_turbo_optimized. unfold print at 1.
  rewrite Run.run_emit_then, Run.run_bind, build_logits_processors_run.
  cbv zeta.
  destruct (construct (source_order c)) as [ps | e]; [ | reflexivity].
  rewrite Run.run_bind. unfold tfmr at 1. rewrite Run.run_emit_then. unfold lift at 1.
  destruct (prefill t3_cond text_tokens [start_speech_token] (Some 0%float))
    as [[past logits] | e]; [ | reflexivity].
  cbn [raised_by]. rewrite Run.run_bind. unfold sample at 1, stateful at 1.
  destruct (multinomial
              (softmax (logits_processors_call ps [start_speech_token] logits)) s)
    as [[first | e] s1]; [ | reflexivity].
  cbn [app].
  destruct (decode_loop c ps (Z.to_nat (max_gen_len c)) 0 [first] first past s1)
    as [[l r] s2].
  reflexivity.
Qed.

End Loop.

End ServerFacts.

(** ** The claims about [t3_inference_turbo_optimized] *)

Module ServerClaims.
Import SpeakerServer ServerFacts.

(** *** Exceptions *)

(** C8. If a call of the transformer (the prefill, or the step that advances
    the cache and predicts the next scores) raises [e], then
    [t3_inference_turbo_optimized] raises [e] itself: it returns no token
    sequence, and the failing call is the last thing the run did, so the
    exception was neither caught, nor retried, nor followed by another
    call.  In particular a step of the loop whose call raises ends the loop
    with that exception after one call, and so does a prefill that raises. *)
Theorem transformer_exception_propagates {R : Runtime} t3_cond text_tokens c
  (s : Rng) :
  (forall inputs (e : Exn),
     In (Tfmr inputs (Some e))
        (log_of (t3_inference_turbo_optimized t3_cond text_tokens c s)) ->
     result_of (t3_inference_turbo_optimized t3_cond text_tokens c s) = Raise e
     /\ exists before,
          log_of (t3_inference_turbo_optimized t3_cond text_tokens c s)
          = before ++ [Tfmr inputs (Some e)]
          /\ fault_free before)
  /\ (forall ps n i generated current past (e : Exn),
        decode past current = Raise e ->
        decode_loop c ps (S n) i generated current past s
        = ([Tfmr (SpeechEmb current) (Some e)], Raise e, s))
  /\ (forall ps (e : Exn),
        construct (source_order c) = Ok ps ->
        prefill t3_cond text_tokens [start_speech_token] (Some 0%float) = Raise e ->
        t3_inference_turbo_optimized t3_cond text_tokens c s
        = ([Stdout ("DEBUG: Starting inference with max_gen_len="
                    ++ str_of_int (max_gen_len c)
                    ++ ", text_tokens shape=" ++ shape_str text_tokens);
            Tfmr (Embeds text_tokens [start_speech_token]) (Some e)],
           Raise e, s)).
Proof.
  split; [ | split].
  - intros inputs e Hin.
    pose proof (disciplined_t3_inference_turbo_optimized t3_cond text_tokens c s) as H.
    unfold disciplined in H.
    destruct (result_of (t3_inference_turbo_optimized t3_cond text_tokens c s))
      as [tokens | e'].
    + destruct (H _ _ Hin).
    + destruct H as (before & Hfree & [Hlog | (inputs' & Hlog)]); rewrite Hlog in Hin.
      * destruct (Hfree _ _ Hin).
      * apply in_app_or in Hin as [Hin | [Heq | []]].
        -- destruct (Hfree _ _ Hin).
        -- injection Heq as -> ->. split; [reflexivity | ].
           exists before. split; [exact Hlog | exact Hfree].
  - intros ps n i generated current past e H. now apply decode_loop_fault.
  - intros ps e Hps H. now apply prefill_fault with (ps := ps).
Qed.

Lemma transformer_exception_propagates_witness :
  In (Tfmr (R := Scripted.faulty) (SpeechEmb 2) (Some "out of memory"))
     (log_of (t3_inference_turbo_optimized (R := Scripted.faulty) tt [1; 2; 3]
                default_config 0%nat))
  /\ result_of (t3_inference_turbo_optimized (R := Scripted.faulty) tt [1; 2; 3]
                  default_config 0%nat)
     = Raise "out of memory"
  /\ decode_loop (R := Scripted.faulty) default_config [] 1 0 [1; 2] 2 2%nat 0%nat
     = ([Tfmr (R := Scripted.faulty) (SpeechEmb 2) (Some "out of memory")],
        Raise "out of memory", 0%nat).
Proof.
  assert (Hin : In (Tfmr (R := Scripted.faulty) (SpeechEmb 2) (Some "out of memory"))
                  (log_of (t3_inference_turbo_optimized (R := Scripted.faulty) tt
                             [1; 2; 3] default_config 0%nat))).
  { vm_compute. right. right. right. left. reflexivity. }
  destruct (transformer_exception_propagates (R := Scripted.faulty) tt [1; 2; 3]
              default_config 0%nat) as (Hlog & Hstep & _).
  split; [exact Hin | ].
  split; [exact (proj1 (Hlog (SpeechEmb 2) "out of memory" Hin)) | ].
  apply Hstep. reflexivity.
Defined.

(** *** The order of the processors *)

(** C2, as the code has it.  Lines 42-50 construct the enabled processors in
    the order temperature, top-k, top-p, repetition penalty, and every call
    of the list applies them in that order: the temperature warper sees the
    raw scores, and the repetition penalty comes last, on scores already
    scaled and truncated.  The loop draws every token through that list:
    the token of an iteration is drawn from the softmax of the raw scores
    of that iteration's call of the transformer, filtered in this order
    against the tokens generated so far; the token drawn before the loop
    is filtered in the same order against the start token. *)
Theorem processors_run_in_source_order {R : Runtime} (c : SamplingConfig) (s : Rng) :
  build_logits_processors c s = ([], construct (source_order c), s)
  /\ (forall input_ids scores,
        logits_processors_call (source_order c) input_ids scores =
        logits_processors_call (penalty_stage c) input_ids
          (logits_processors_call (top_p_stage c) input_ids
             (logits_processors_call (top_k_stage c) input_ids
                (logits_processors_call (temperature_stage c) input_ids scores))))
  /\ (forall (n : nat) i generated current past past' raw,
        decode past current = Ok (past', raw) ->
        decode_loop c (source_order c) (S n) i generated current past s =
        match
          multinomial
            (softmax
               (logits_processors_call (penalty_stage c) generated
                  (logits_processors_call (top_p_stage c) generated
                     (logits_processors_call (top_k_stage c) generated
                        (logits_processors_call (temperature_stage c) generated raw)))))
            s
        with
        | (Raise e, s1) => ([Tfmr (SpeechEmb current) None], Raise e, s1)
        | (Ok next, s1) =>
            if (next =? stop_speech_token)%Z
            then ([Tfmr (SpeechEmb current) None;
                   Stdout ("DEBUG: Hit STOP_TOKEN at step " ++ str_of_int i)],
                  Ok generated, s1)
            else
              let '(l, r, s2) :=
                decode_loop c (source_order c) n (i + 1) (generated ++ [next]) next
                  past' s1 in
              (Tfmr (SpeechEmb current) None :: l, r, s2)
        end)
  /\ (forall t3_cond text_tokens ps past raw,
        construct (source_order c) = Ok ps ->
        prefill t3_cond text_tokens [start_speech_token] (Some 0%float)
        = Ok (past, raw) ->
        let line :=
          Stdout ("DEBUG: Starting inference with max_gen_len="
                  ++ str_of_int (max_gen_len c)
                  ++ ", text_tokens shape=" ++ shape_str text_tokens) in
        t3_inference_turbo_optimized t3_cond text_tokens c s =
        match
          multinomial
            (softmax
               (logits_processors_call (penalty_stage c) [start_speech_token]
                  (logits_processors_call (top_p_stage c) [start_speech_token]
                     (logits_processors_call (top_k_stage c) [start_speech_token]
                        (logits_processors_call (temperature_stage c)
                           [start_speech_token] raw)))))
            s
        with
        | (Raise e, s1) =>
            ([line; Tfmr (Embeds text_tokens [start_speech_token]) None], Raise e, s1)
        | (Ok first, s1) =>
            let '(l, r, s2) :=
              decode_loop c (source_order c) (Z.to_nat (max_gen_len c)) 0 [first]
                first past s1 in
            (line :: Tfmr (Embeds text_tokens [start_speech_token]) None :: l, r, s2)
        end).
Proof.
  assert (Horder : forall input_ids scores,
             logits_processors_call (source_order c) input_ids scores =
             logits_processors_call (penalty_stage c) input_ids
               (logits_processors_call (top_p_stage c) input_ids
                  (logits_processors_call (top_k_stage c) input_ids
                     (logits_processors_call (temperature_stage c) input_ids scores)))).
  { intros input_ids scores. unfold source_order.
    now rewrite !logits_processors_call_app. }
  split; [apply build_logits_processors_run | ].
  split; [exact Horder | ].
  split.
  - intros n i generated current past past' raw Hdecode.
    rewrite decode_loop_step, Hdecode, Horder. reflexivity.
  - intros t3_cond text_tokens ps past raw Hps Hprefill line.
    rewrite t3_inference_turbo_optimized_run. cbv zeta.
    rewrite Hps, Hprefill. apply construct_ok in Hps. subst ps.
    rewrite Horder. reflexivity.
Qed.

(** On the defaults of the signature and a model whose scores peak on
    token 9: one iteration of the loop, and the whole run for
    [max_gen_len = 3]. *)
Lemma processors_run_in_source_order_witness :
  decode_loop (R := Scripted.steady) default_config (source_order default_config)
    1 0 [9] 9 1%nat 1%nat
  = ([Tfmr (SpeechEmb 9) None; Stdout "DEBUG: Hit max_gen_len (1500)"],
     Ok [9; 9], 2%nat)
  /\ result_of (t3_inference_turbo_optimized (R := Scripted.steady) tt [1; 2; 3]
                  Scripted.three_steps 0%nat)
     = Ok [9; 9; 9; 9].
Proof.
  split.
  - rewrite (proj1 (proj2 (proj2 (processors_run_in_source_order
                                    (R := Scripted.steady) default_config 1%nat)))
               0%nat 0 [9] 9 1%nat 2%nat (9, []) eq_refl).
    reflexivity.
  - rewrite (proj2 (proj2 (proj2 (processors_run_in_source_order
                                    (R := Scripted.steady) Scripted.three_steps 0%nat)))
               tt [1; 2; 3] (source_order Scripted.three_steps) 1%nat (9, [])
               eq_refl eq_refl).
    reflexivity.
Defined.

(** C2, as the specification has it, fails on the defaults of the signature:
    the list that is built starts with the temperature warper and ends with
    the repetition penalty, and applying it differs from applying the
    processors in the order penalty, temperature, top-k, top-p. *)
Lemma repetition_penalty_is_not_applied_first :
  result_of (build_logits_processors (R := Scripted.steady) default_config 0%nat)
  = Ok [TemperatureLogitsWarper 0.1; TopKLogitsWarper 50;
        TopPLogitsWarper 0.95; RepetitionPenaltyLogitsProcessor 1.2]
  /\ spec_order default_config
     = [RepetitionPenaltyLogitsProcessor 1.2; TemperatureLogitsWarper 0.1;
        TopKLogitsWarper 50; TopPLogitsWarper 0.95]
  /\ logits_processors_call (R := Scripted.steady)
       [TemperatureLogitsWarper 0.1; TopKLogitsWarper 50;
        TopPLogitsWarper 0.95; RepetitionPenaltyLogitsProcessor 1.2]
       [6561] (9, [])
     <> logits_processors_call (R := Scripted.steady)
          (spec_order default_config) [6561] (9, []).
Proof.
  split; [reflexivity | ]. split; [reflexivity | ].
  vm_compute. discriminate.
Qed.

(** *** Configurations out of range *)

(** C4, as the code has it.  The loop validates nothing.  A temperature that
    is not positive, a negative [top_k] and a [top_p] above one each fail
    the test of their [if], so the run is the run of the configuration with
    that filter at its disabled value (1.0, 0, 1.0); and whenever the
    constructors of the enabled processors raise nothing, the transformer is
    called: the log starts with the debug line and the prefill. *)
Theorem out_of_range_fields_disable_their_filter {R : Runtime} t3_cond text_tokens
  (c : SamplingConfig) (s : Rng) :
  ((temperature c <=? 0)%float = true ->
   t3_inference_turbo_optimized t3_cond text_tokens c s
   = t3_inference_turbo_optimized t3_cond text_tokens (with_temperature 1 c) s)
  /\ ((top_k c < 0)%Z ->
      t3_inference_turbo_optimized t3_cond text_tokens c s
      = t3_inference_turbo_optimized t3_cond text_tokens (with_top_k 0 c) s)
  /\ ((1 <? top_p c)%float = true ->
      t3_inference_turbo_optimized t3_cond text_tokens c s
      = t3_inference_turbo_optimized t3_cond text_tokens (with_top_p 1 c) s)
  /\ (forall ps,
        construct (source_order c) = Ok ps ->
        exists rest,
          log_of (t3_inference_turbo_optimized t3_cond text_tokens c s)
          = Stdout ("DEBUG: Starting inference with max_gen_len="
                    ++ str_of_int (max_gen_len c)
                    ++ ", text_tokens shape=" ++ shape_str text_tokens)
            :: Tfmr (Embeds text_tokens [start_speech_token])
                    (raised_by (prefill t3_cond text_tokens [start_speech_token]
                                  (Some 0%float)))
            :: rest).
Proof.
  repeat split.
  - intros Hle. apply t3_inference_turbo_optimized_config; [ | reflexivity].
    unfold source_order. f_equal.
    unfold temperature_stage, temperature_enabled.
    rewrite (FloatOrder.leb_not_ltb _ _ Hle). reflexivity.
  - intros Hneg. apply t3_inference_turbo_optimized_config; [ | reflexivity].
    unfold source_order. do 2 f_equal.
    unfold top_k_stage, top_k_enabled.
    replace (0 <? top_k c)%Z with false by (symmetry; apply Z.ltb_ge; lia).
    reflexivity.
  - intros Hgt. apply t3_inference_turbo_optimized_config; [ | reflexivity].
    unfold source_order. do 3 f_equal.
    unfold top_p_stage, top_p_enabled.
    rewrite (FloatOrder.ltb_asym _ _ Hgt). reflexivity.
  - intros ps Hps. now apply t3_inference_turbo_optimized_prefills with (ps := ps).
Qed.

Lemma out_of_range_fields_disable_their_filter_witness :
  t3_inference_turbo_optimized (R := Scripted.steady) tt [1; 2; 3] Scripted.malformed 0%nat
  = t3_inference_turbo_optimized (R := Scripted.steady) tt [1; 2; 3]
      (with_temperature 1 Scripted.malformed) 0%nat
  /\ t3_inference_turbo_optimized (R := Scripted.steady) tt [1; 2; 3] Scripted.malformed 0%nat
     = t3_inference_turbo_optimized (R := Scripted.steady) tt [1; 2; 3]
         (with_top_k 0 Scripted.malformed) 0%nat
  /\ t3_inference_turbo_optimized (R := Scripted.steady) tt [1; 2; 3] Scripted.malformed 0%nat
     = t3_inference_turbo_optimized (R := Scripted.steady) tt [1; 2; 3]
         (with_top_p 1 Scripted.malformed) 0%nat.
Proof.
  destruct (out_of_range_fields_disable_their_filter (R := Scripted.steady) tt
              [1; 2; 3] Scripted.malformed 0%nat) as (Ht & Hk & Hp & _).
  split; [apply Ht; reflexivity | ].
  split; [apply Hk; reflexivity | apply Hp; reflexivity].
Defined.

(** C4, as the specification has it, fails: with temperature 0, [top_k = -1]
    and [top_p = 1.5] nothing is rejected.  The transformer is called three
    times and three tokens are returned. *)
Lemma malformed_configuration_reaches_the_transformer :
  result_of (t3_inference_turbo_optimized (R := Scripted.steady) tt [1; 2; 3]
               Scripted.malformed 0%nat)
  = Ok [9; 9; 9]
  /\ log_of (t3_inference_turbo_optimized (R := Scripted.steady) tt [1; 2; 3]
               Scripted.malformed 0%nat)
     = [Stdout "DEBUG: Starting inference with max_gen_len=2, text_tokens shape=torch.Size([1, 3])";
        Tfmr (Embeds [1; 2; 3] [6561]) None;
        Tfmr (SpeechEmb 9) None;
        Tfmr (SpeechEmb 9) None;
        Stdout "DEBUG: Hit max_gen_len (2)"].
Proof. split; reflexivity. Qed.

(** *** Disabled filters *)

Lemma stage_kinds (c : SamplingConfig) :
  (forall t, ~ In (TemperatureLogitsWarper t)
               (top_k_stage c ++ top_p_stage c ++ penalty_stage c))
  /\ (forall k, ~ In (TopKLogitsWarper k)
                  (temperature_stage c ++ top_p_stage c ++ penalty_stage c))
  /\ (forall p, ~ In (TopPLogitsWarper p)
                  (temperature_stage c ++ top_k_stage c ++ penalty_stage c))
  /\ (forall r, ~ In (RepetitionPenaltyLogitsProcessor r)
                  (temperature_stage c ++ top_k_stage c ++ top_p_stage c)).
Proof.
  unfold temperature_stage, top_k_stage, top_p_stage, penalty_stage.
  destruct (temperature_enabled c), (top_k_enabled c), (top_p_enabled c),
    (penalty_enabled c); simpl; repeat split; intros x H;
    repeat match goal with
           | H : _ \/ _ |- _ => destruct H
           | H : False |- _ => destruct H
           | H : _ = _ |- _ => discriminate H
           end.
Qed.

(** C7. A filter at its disabled value is left out of the pipeline, not
    constructed with a neutral parameter: when [top_k == 0] no top-k warper
    is in the list that is built, when [top_p == 1.0] no nucleus warper,
    when [repetition_penalty == 1.0] no penalty processor, when
    [temperature == 1.0] no temperature warper; the list is then exactly the
    other enabled processors, so the scores go from the stage before to the
    stage after unchanged.  With all four disabled the list is empty and the
    processed scores are the raw scores. *)
Theorem disabled_filters_are_skipped {R : Runtime} (c : SamplingConfig) (s : Rng) :
  (top_k c = 0 ->
   forall ps, result_of (build_logits_processors c s) = Ok ps ->
     ps = temperature_stage c ++ top_p_stage c ++ penalty_stage c
     /\ forall k, ~ In (TopKLogitsWarper k) ps)
  /\ ((top_p c =? 1)%float = true ->
      forall ps, result_of (build_logits_processors c s) = Ok ps ->
        ps = temperature_stage c ++ top_k_stage c ++ penalty_stage c
        /\ forall p, ~ In (TopPLogitsWarper p) ps)
  /\ ((repetition_penalty c =? 1)%float = true ->
      forall ps, result_of (build_logits_processors c s) = Ok ps ->
        ps = temperature_stage c ++ top_k_stage c ++ top_p_stage c
        /\ forall r, ~ In (RepetitionPenaltyLogitsProcessor r) ps)
  /\ ((temperature c =? 1)%float = true ->
      forall ps, result_of (build_logits_processors c s) = Ok ps ->
        ps = top_k_stage c ++ top_p_stage c ++ penalty_stage c
        /\ forall t, ~ In (TemperatureLogitsWarper t) ps)
  /\ (top_k c = 0 -> (top_p c =? 1)%float = true ->
      (repetition_penalty c =? 1)%float = true -> (temperature c =? 1)%float = true ->
      build_logits_processors c s = ([], Ok [], s)
      /\ forall input_ids scores,
           logits_processors_call [] input_ids scores = scores).
Proof.
  destruct (stage_kinds c) as (Ht & Hk & Hp & Hr).
  assert (Hbuild : forall ps, result_of (build_logits_processors c s) = Ok ps ->
                              ps = source_order c).
  { intros ps H. rewrite build_logits_processors_run in H. now apply construct_ok. }
  assert (Htop_k : top_k c = 0 -> top_k_stage c = []).
  { intros H. unfold top_k_stage, top_k_enabled. now rewrite H. }
  assert (Htop_p : (top_p c =? 1)%float = true -> top_p_stage c = []).
  { intros H. unfold top_p_stage, top_p_enabled.
    now rewrite (FloatOrder.eqb_not_ltb _ _ H). }
  assert (Hpen : (repetition_penalty c =? 1)%float = true -> penalty_stage c = []).
  { intros H. unfold penalty_stage, penalty_enabled. now rewrite H. }
  assert (Htemp : (temperature c =? 1)%float = true -> temperature_stage c = []).
  { intros H. unfold temperature_stage, temperature_enabled.
    rewrite H. now rewrite andb_false_r. }
  split; [ | split; [ | split; [ | split]]].
  - intros Hoff ps Hps. apply Hbuild in Hps. subst ps. unfold source_order.
    rewrite (Htop_k Hoff). split; [reflexivity | apply Hk].
  - intros Hoff ps Hps. apply Hbuild in Hps. subst ps. unfold source_order.
    rewrite (Htop_p Hoff). split; [reflexivity | apply Hp].
  - intros Hoff ps Hps. apply Hbuild in Hps. subst ps. unfold source_order.
    rewrite (Hpen Hoff), !app_nil_r. split; [reflexivity | apply Hr].
  - intros Hoff ps Hps. apply Hbuild in Hps. subst ps. unfold source_order.
    rewrite (Htemp Hoff). split; [reflexivity | apply Ht].
  - intros Hk0 Hp1 Hr1 Ht1. split; [ | reflexivity].
    rewrite build_logits_processors_run. unfold source_order.
    now rewrite (Htop_k Hk0), (Htop_p Hp1), (Hpen Hr1), (Htemp Ht1).
Qed.

Lemma disabled_filters_are_skipped_witness :
  build_logits_processors (R := Scripted.steady) Scripted.all_disabled 0%nat
  = ([], Ok [], 0%nat)
  /\ (forall input_ids scores,
        logits_processors_call (R := Scripted.steady) [] input_ids scores = scores)
  /\ (forall k, ~ In (TopKLogitsWarper k) [])
  /\ (forall p, ~ In (TopPLogitsWarper p) [])
  /\ (forall r, ~ In (RepetitionPenaltyLogitsProcessor r) [])
  /\ (forall t, ~ In (TemperatureLogitsWarper t) []).
Proof.
  destruct (disabled_filters_are_skipped (R := Scripted.steady)
              Scripted.all_disabled 0%nat) as (Hk & Hp & Hr & Ht & Hall).
  split; [apply Hall; reflexivity | ].
  split; [apply Hall; reflexivity | ].
  split; [apply (Hk eq_refl []); reflexivity | ].
  split; [apply (Hp eq_refl []); reflexivity | ].
  split; [apply (Hr eq_refl []); reflexivity | ].
  apply (Ht eq_refl []); reflexivity.
Defined.

(** *** The token sampled from the prefill scores *)

(** Line 62 appends the first sampled token before the loop is entered: it
    is not compared with the stop token, and it is not one of the
    [max_gen_len] iterations.  The four runs below show what follows. *)

(** C1. The prefill scores peak on the stop token 6562, and 6562 is the
    first token of the returned sequence. *)
Theorem stop_token_sampled_first_is_returned :
  result_of (t3_inference_turbo_optimized (R := Scripted.stop_first) tt [1; 2; 3]
               Scripted.three_steps 0%nat)
  = Ok [6562; 10; 11; 12]
  /\ In (stop_speech_token (Runtime := Scripted.stop_first)) [6562; 10; 11; 12].
Proof. split; [reflexivity | left; reflexivity]. Qed.

(** C3. With [max_gen_len = 3] and a model that never predicts the stop
    token, four tokens are returned. *)
Theorem max_gen_len_is_exceeded_by_one :
  max_gen_len Scripted.three_steps = 3
  /\ exists tokens,
       result_of (t3_inference_turbo_optimized (R := Scripted.steady) tt [1; 2; 3]
                    Scripted.three_steps 0%nat)
       = Ok tokens
       /\ List.length tokens = 4%nat.
Proof. split; [reflexivity | ]. exists [9; 9; 9; 9]. split; reflexivity. Qed.

(** C5. The prefill scores peak on the stop token, and the returned sequence
    is not empty: generation goes on, and ends at the next stop token, which
    the loop does leave out. *)
Theorem stop_token_at_first_step_does_not_end_generation :
  result_of (t3_inference_turbo_optimized (R := Scripted.stop_first_and_third) tt
               [1; 2; 3] Scripted.three_steps 0%nat)
  = Ok [6562; 10]
  /\ log_of (t3_inference_turbo_optimized (R := Scripted.stop_first_and_third) tt
               [1; 2; 3] Scripted.three_steps 0%nat)
     = [Stdout "DEBUG: Starting inference with max_gen_len=3, text_tokens shape=torch.Size([1, 3])";
        Tfmr (Embeds [1; 2; 3] [6561]) None;
        Tfmr (SpeechEmb 6562) None;
        Tfmr (SpeechEmb 10) None;
        Stdout "DEBUG: Hit STOP_TOKEN at step 1"].
Proof. split; reflexivity. Qed.

(** C6. With [max_gen_len = 5] and a model that never predicts the stop
    token, the run ends on the length cap, without an exception, and returns
    six tokens. *)
Theorem five_steps_return_six_tokens :
  result_of (t3_inference_turbo_optimized (R := Scripted.steady) tt [1; 2; 3]
               Scripted.five_steps 0%nat)
  = Ok [9; 9; 9; 9; 9; 9]
  /\ last (log_of (t3_inference_turbo_optimized (R := Scripted.steady) tt [1; 2; 3]
                     Scripted.five_steps 0%nat))
       (Stdout "")
     = Stdout "DEBUG: Hit max_gen_len (5)".
Proof. split; reflexivity. Qed.

End ServerClaims.

(** ** The arg-max variant of [src/debug_python_tokens.py] *)

Module DebugClaims.
Import DebugPythonTokens.

Section Determinism.
Context {R : Runtime}.

Lemma stateless_print (line : string) : stateless (print line).
Proof. apply Run.stateless_emit. Qed.

Lemma stateless_tfmr inputs (r : result Exn (Cache * Logits)) :
  stateless (tfmr inputs r).
Proof.
  apply Run.stateless_bind; [apply Run.stateless_emit | ].
  intros _. apply Run.stateless_lift.
Qed.

Lemma stateless_new (p : LogitsProcessor) : stateless (new p).
Proof.
  unfold new. destruct (init_error p).
  - apply Run.stateless_raise.
  - apply Run.stateless_ret.
Qed.

Lemma stateless_argmax_loop ps (n : nat) :
  forall i speech_tokens past logits,
    stateless (argmax_loop ps n i speech_tokens past logits).
Proof.
  induction n as [ | n IH]; intros i speech_tokens past logits; simpl.
  - apply Run.stateless_ret.
  - apply Run.stateless_bind; [apply stateless_print | ]. intros _.
    destruct (argmax (logits_processors_call ps speech_tokens logits)
              =? stop_speech_token)%Z.
    + apply Run.stateless_bind; [apply stateless_print | ]. intros _.
      apply Run.stateless_ret.
    + apply Run.stateless_bind; [apply stateless_tfmr | ].
      intros [past' logits']. apply IH.
Qed.

Lemma stateless_main : stateless main.
Proof.
  unfold main.
  apply Run.stateless_bind; [apply stateless_print | ]. intros _.
  apply Run.stateless_bind; [apply stateless_new | ]. intros p.
  apply Run.stateless_bind; [apply stateless_print | ]. intros _.
  apply Run.stateless_bind; [apply stateless_print | ]. intros _.
  apply Run.stateless_bind; [apply stateless_tfmr | ]. intros [past logits].
  apply stateless_argmax_loop.
Qed.

Lemma stateless_runs_agree {A} (m : T3M A) (r1 r2 : Rng) :
  stateless m ->
  log_of (m r1) = log_of (m r2)
  /\ result_of (m r1) = result_of (m r2)
  /\ state_of (m r1) = r1.
Proof. intros (l & r & H). rewrite (H r1), (H r2). auto. Qed.

End Determinism.

(** The script on a model whose scores peak on 5, 4 and then on the stop
    token: the stop token is printed, and not appended. *)
Example main_run :
  main (R := Scripted.runtime (Scripted.tokens [5; 4; 6562] 9)) 0%nat
  = ([Stdout "Generating for: Hi there!";
      Stdout "Start token: 6561";
      Stdout "Stop token: 6562";
      Tfmr (Embeds [72; 105; 32; 116; 104; 101; 114; 101; 33] [6561]) None;
      Stdout "  Step 0: token=5";
      Tfmr (SpeechEmb 5) None;
      Stdout "  Step 1: token=4";
      Tfmr (SpeechEmb 4) None;
      Stdout "  Step 2: token=6562";
      Stdout "  Hit stop token!"],
     Ok [6561; 5; 4], 0%nat).
Proof. reflexivity. Qed.

(** C9. The arg-max variant draws nothing from torch's generator.  Two
    invocations with the same model, the same initial context and the same
    processors print the same lines, make the same calls of the transformer
    and end with the same [speech_tokens] (or the same exception), whatever
    the states [r1] and [r2] of the generator they start from, and leave the
    generator untouched.  This holds for the script as written (its only
    processor is the repetition penalty 1.2) and for the loop of lines 40-54
    under every list of processors, the empty list of the configuration
    [top_k = 0], [top_p = 1.0], [repetition_penalty = 1.0],
    [temperature = 1.0] among them. *)
Theorem argmax_variant_is_deterministic {R : Runtime} :
  (forall r1 r2 : Rng,
     log_of (main r1) = log_of (main r2)
     /\ result_of (main r1) = result_of (main r2)
     /\ state_of (main r1) = r1)
  /\ (forall ps n i speech_tokens past logits (r1 r2 : Rng),
        log_of (argmax_loop ps n i speech_tokens past logits r1)
        = log_of (argmax_loop ps n i speech_tokens past logits r2)
        /\ result_of (argmax_loop ps n i speech_tokens past logits r1)
           = result_of (argmax_loop ps n i speech_tokens past logits r2)
        /\ state_of (argmax_loop ps n i speech_tokens past logits r1) = r1).
Proof.
  split.
  - intros r1 r2. apply stateless_runs_agree, stateless_main.
  - intros ps n i speech_tokens past logits r1 r2.
    apply stateless_runs_agree, stateless_argmax_loop.
Qed.

End DebugClaims.

(** ** Python [str] *)

Module UnicodeFacts.
Import Unicode.

Lemma eqb_spec (s t : unicode) : reflect (s = t) (eqb s t).
Proof.
  revert t. induction s as [ | a s IH]; intros [ | b t]; simpl;
    try (constructor; congruence).
  destruct (N.eqb_spec a b) as [-> | Hab]; simpl.
  - destruct (IH t) as [-> | Hst]; constructor; congruence.
  - constructor. congruence.
Qed.

Lemma eqb_refl (s : unicode) : eqb s s = true.
Proof. now destruct (eqb_spec s s). Qed.

Lemma eqb_neq (s t : unicode) : eqb s t = false <-> s <> t.
Proof. destruct (eqb_spec s t); split; congruence. Qed.

End UnicodeFacts.

(** ** The server loop of [src/speaker_pipe.py] *)

Module PipeClaims.
Import Unicode SpeakerPipe.

Section Protocol.
Context {Sp : Speaker}.

(** [speak] calls [print] once, whatever [synthesize] does, and does not
    raise. *)
Lemma speak_run (text : unicode) (w : World) :
  speak text w =
  match synthesize text w with
  | (Ok audio_b64, w1) => ([lit "AUDIO:" ++ audio_b64], Ok tt, w1)
  | (Raise e, w1) => ([lit "ERROR:" ++ str e], Ok tt, w1)
  end.
Proof.
  unfold speak. cbn. unfold catch_, bind_, stateful, emit.
  destruct (synthesize text w) as [[audio_b64 | e] w1]; reflexivity.
Qed.

Lemma serve_blank line stdin (w : World) :
  strip line = [] -> serve (line :: stdin) w = serve stdin w.
Proof. intros H. simpl. now rewrite H. Qed.

Lemma serve_exit line stdin (w : World) :
  strip line = lit "EXIT" -> serve (line :: stdin) w = ([], Ok tt, w).
Proof. intros H. simpl. now rewrite H. Qed.

Lemma serve_request line stdin (w : World) :
  strip line <> [] -> strip line <> lit "EXIT" ->
  serve (line :: stdin) w =
  match synthesize (strip line) w with
  | (Ok audio_b64, w1) =>
      ((lit "AUDIO:" ++ audio_b64) :: log_of (serve stdin w1),
       result_of (serve stdin w1), state_of (serve stdin w1))
  | (Raise e, w1) =>
      ((lit "ERROR:" ++ str e) :: log_of (serve stdin w1),
       result_of (serve stdin w1), state_of (serve stdin w1))
  end.
Proof.
  intros Hblank Hexit. cbn [serve].
  apply UnicodeFacts.eqb_neq in Hblank. apply UnicodeFacts.eqb_neq in Hexit.
  rewrite Hblank, Hexit, Run.run_bind, speak_run.
  destruct (synthesize (strip line) w) as [[audio_b64 | e] w1];
    destruct (serve stdin w1) as [[l r] w2]; reflexivity.
Qed.

Lemma serve_answers stdin :
  forall w : World,
    result_of (serve stdin w) = Ok tt
    /\ List.length (log_of (serve stdin w)) = List.length (requests stdin)
    /\ Forall is_response (log_of (serve stdin w)).
Proof.
  induction stdin as [ | line stdin IH]; intros w.
  - repeat split. constructor.
  - destruct (UnicodeFacts.eqb_spec (strip line) []) as [Hblank | Hblank].
    { rewrite (serve_blank _ _ _ Hblank). simpl requests. rewrite Hblank. apply IH. }
    destruct (UnicodeFacts.eqb_spec (strip line) (lit "EXIT")) as [Hexit | Hexit].
    { rewrite (serve_exit _ _ _ Hexit). simpl requests. rewrite Hexit.
      repeat split. constructor. }
    rewrite (serve_request _ _ _ Hblank Hexit). simpl requests.
    apply UnicodeFacts.eqb_neq in Hblank. apply UnicodeFacts.eqb_neq in Hexit.
    rewrite Hblank, Hexit.
    destruct (synthesize (strip line) w) as [[audio_b64 | e] w1];
      destruct (IH w1) as (Hres & Hlen & Hall);
      (repeat split;
       [ exact Hres
       | unfold log_of at 1; simpl; now rewrite Hlen
       | constructor; [ | exact Hall] ]).
    + left. now exists audio_b64.
    + right. now exists (str e).
Qed.

End Protocol.

Example strip_line :
  strip (lit "  hi there " ++ [LF]) = lit "hi there"
  /\ strip (lit "   " ++ [LF]) = []
  /\ strip ([0x3000; 0x2003]%N ++ lit "EXIT" ++ [0x2028; LF]%N) = lit "EXIT"
  /\ requests Scripted.stdin_lines = [lit "hello"; lit "boom"].
Proof. repeat split. Qed.

(** C10. A request on which the synthesis raises an exception whose message
    has two lines.  The loop of lines 43-49 answers the one request with one
    [print] (line 35), and the reader of the pipe gets two lines for it: the
    second one is neither [AUDIO:<base64>] nor [ERROR:<message>]. *)
Theorem error_message_with_a_line_feed_is_read_as_two_lines :
  requests [lit "hello" ++ [LF]] = [lit "hello"]
  /\ main (Sp := Scripted.two_line_error) [lit "hello" ++ [LF]] 0%nat
     = ([lit "READY"; lit "ERROR:generation failed" ++ [LF] ++ lit "see the log"],
        Ok tt, 1%nat)
  /\ lines_read
       (log_of (main (Sp := Scripted.two_line_error) [lit "hello" ++ [LF]] 0%nat))
     = [lit "READY"; lit "ERROR:generation failed"; lit "see the log"]
  /\ ~ is_response (lit "see the log").
Proof.
  repeat split.
  intros [[audio_b64 H] | [message H]]; vm_compute in H; discriminate H.
Qed.

End PipeClaims.

(** ** Further properties: strings *)

Module StringFacts.
Import Unicode SpeakerPipe SpeakEndpoint.

(** *** [strip] *)

Lemma lstrip_head (s : unicode) : head_not_space (lstrip s).
Proof.
  induction s as [ | c s IH]; simpl; [exact I | ].
  destruct (isspace c) eqn:Hc; [exact IH | exact Hc].
Qed.

Lemma lstrip_fixed (s : unicode) : head_not_space s -> lstrip s = s.
Proof. destruct s as [ | c s]; simpl; [reflexivity | ]. now intros ->. Qed.

Lemma rstrip_cons (c : char) (s : unicode) :
  rstrip (c :: s) = []
  \/ exists t, rstrip (c :: s) = c :: t.
Proof.
  simpl. destruct (rstrip s) as [ | d t].
  - destruct (isspace c); [now left | right; now exists []].
  - right. now exists (d :: t).
Qed.

Lemma rstrip_head (s : unicode) : head_not_space s -> head_not_space (rstrip s).
Proof.
  destruct s as [ | c s]; [easy | ]. intros H.
  destruct (rstrip_cons c s) as [-> | (t & ->)]; [exact I | exact H].
Qed.

Lemma rstrip_idempotent (s : unicode) : rstrip (rstrip s) = rstrip s.
Proof.
  induction s as [ | c s IH]; [reflexivity | ]. simpl.
  destruct (rstrip s) as [ | d t] eqn:Hr.
  - destruct (isspace c) eqn:Hc; [reflexivity | ]. simpl. now rewrite Hc.
  - change (rstrip (c :: d :: t)) with
      (match rstrip (d :: t) with
       | [] => if isspace c then [] else [c]
       | a :: b => c :: a :: b
       end).
    now rewrite IH.
Qed.

Lemma strip_idempotent (s : unicode) : strip (strip s) = strip s.
Proof.
  unfold strip.
  rewrite (lstrip_fixed (rstrip (lstrip s))) by apply rstrip_head, lstrip_head.
  apply rstrip_idempotent.
Qed.

(** *** The characters that are not whitespace *)

Lemma non_space_app (s t : unicode) :
  non_space (s ++ t) = non_space s ++ non_space t.
Proof.
  induction s as [ | c s IH]; simpl; [reflexivity | ].
  destruct (isspace c); simpl; now rewrite IH.
Qed.

Lemma non_space_lstrip (s : unicode) : non_space (lstrip s) = non_space s.
Proof.
  induction s as [ | c s IH]; simpl; [reflexivity | ].
  destruct (isspace c) eqn:Hc; [exact IH | ]. simpl. now rewrite Hc.
Qed.

Lemma non_space_rstrip (s : unicode) : non_space (rstrip s) = non_space s.
Proof.
  induction s as [ | c s IH]; [reflexivity | ]. simpl.
  destruct (rstrip s) as [ | d t] eqn:Hr.
  - simpl in IH. rewrite <- IH.
    destruct (isspace c) eqn:Hc; simpl; [reflexivity | now rewrite Hc].
  - change (non_space (c :: d :: t)) with
      (if isspace c then non_space (d :: t)
       else c :: non_space (d :: t)).
    now rewrite IH.
Qed.

Lemma non_space_strip (s : unicode) : non_space (strip s) = non_space s.
Proof. unfold strip. now rewrite non_space_rstrip, non_space_lstrip. Qed.

Lemma rstrip_empty (s : unicode) : rstrip s = [] <-> non_space s = [].
Proof.
  split.
  - intros H. rewrite <- non_space_rstrip, H. reflexivity.
  - induction s as [ | c s IH]; [reflexivity | ]. simpl.
    destruct (isspace c) eqn:Hc; [ | discriminate].
    intros H. now rewrite (IH H).
Qed.

Lemma strip_empty (s : unicode) : strip s = [] <-> non_space s = [].
Proof.
  unfold strip. rewrite rstrip_empty, non_space_lstrip. reflexivity.
Qed.

(** *** The last character *)

Lemma last_char_cons (c : char) (s : unicode) :
  last_char (c :: s) = match last_char s with None => Some c | Some d => Some d end.
Proof.
  destruct s as [ | d s]; [reflexivity | ].
  change (last_char (c :: d :: s)) with (last_char (d :: s)).
  destruct (last_char (d :: s)) eqn:H; [reflexivity | ].
  exfalso. revert d H. induction s as [ | e s IH]; intros d H; [discriminate | ].
  exact (IH e H).
Qed.

Lemma last_char_none (s : unicode) : last_char s = None -> s = [].
Proof.
  induction s as [ | c s IH]; [reflexivity | ]. rewrite last_char_cons.
  destruct (last_char s); discriminate.
Qed.

Lemma is_mark_not_space (c : char) : is_mark c = true -> isspace c = false.
Proof.
  unfold is_mark. rewrite !orb_true_iff, !N.eqb_eq.
  intros [[[[-> | ->] | ->] | ->] | ->]; reflexivity.
Qed.

Lemma rstrip_last (s : unicode) (c : char) :
  last_char s = Some c -> isspace c = false -> rstrip s = s.
Proof.
  induction s as [ | a s IH]; [discriminate | ]. rewrite last_char_cons.
  destruct (last_char s) as [d | ] eqn:Hl; intros Heq Hc.
  - injection Heq as ->. simpl. rewrite (IH eq_refl Hc).
    destruct s; [discriminate | reflexivity].
  - injection Heq as ->. apply last_char_none in Hl. subst s. simpl. now rewrite Hc.
Qed.

Lemma lstrip_last (s : unicode) (c : char) :
  last_char s = Some c -> isspace c = false -> last_char (lstrip s) = Some c.
Proof.
  induction s as [ | a s IH]; [discriminate | ]. intros Hl Hc. simpl.
  destruct (isspace a) eqn:Ha; [ | exact Hl].
  rewrite last_char_cons in Hl. destruct (last_char s) as [d | ].
  - apply IH; [exact Hl | exact Hc].
  - injection Hl as ->. congruence.
Qed.

Lemma strip_ends_with_mark (s : unicode) :
  ends_with_mark s -> ends_with_mark (strip s) /\ strip s <> [].
Proof.
  intros (c & Hl & Hm). pose proof (is_mark_not_space c Hm) as Hc.
  pose proof (lstrip_last s c Hl Hc) as Hl'.
  unfold strip. rewrite (rstrip_last _ _ Hl' Hc). split.
  - now exists c.
  - intros H. rewrite H in Hl'. discriminate.
Qed.

(** *** [re.split] *)

Lemma non_space_concat (x : unicode) (xs : list unicode) :
  non_space (List.concat (x :: xs)) = non_space x ++ non_space (List.concat xs).
Proof. cbn [List.concat]. apply non_space_app. Qed.

(** Splitting loses whitespace only. *)
Lemma re_split_from_non_space (text : unicode) :
  forall st piece pieces,
    re_split_from st text = (piece, pieces) ->
    non_space (List.concat (piece :: pieces)) = non_space text.
Proof.
  induction text as [ | c text IH]; intros st piece pieces H.
  - simpl in H. injection H as <- <-. reflexivity.
  - rewrite non_space_concat.
    assert (Hcons : forall st' p ps,
               re_split_from st' text = (p, ps) ->
               piece = (c :: p) -> pieces = ps ->
               (non_space piece ++ non_space (List.concat pieces))
               = non_space (c :: text)).
    { intros st' p ps Hrec -> ->. apply IH in Hrec.
      rewrite non_space_concat in Hrec. simpl.
      destruct (isspace c); simpl; now rewrite Hrec. }
    simpl in H. destruct st.
    + destruct (isspace c) eqn:Hc.
      * destruct (re_split_from InSeparator text) as [p ps] eqn:Hrec.
        injection H as <- <-. apply IH in Hrec. simpl. now rewrite Hc.
      * destruct (re_split_from (after c) text) as [p ps] eqn:Hrec.
        injection H as <- <-. now apply (Hcons _ _ _ Hrec).
    + destruct (isspace c) eqn:Hc.
      * apply IH in H. rewrite non_space_concat in H. simpl. now rewrite Hc.
      * destruct (re_split_from (after c) text) as [p ps] eqn:Hrec.
        injection H as <- <-. now apply (Hcons _ _ _ Hrec).
    + destruct (re_split_from (after c) text) as [p ps] eqn:Hrec.
      injection H as <- <-. now apply (Hcons _ _ _ Hrec).
Qed.

(** Every piece that is followed by another ends with a mark. *)
Lemma re_split_from_marks (text : unicode) :
  forall st piece pieces,
    re_split_from st text = (piece, pieces) ->
    pieces <> [] ->
    (ends_with_mark piece \/ (piece = [] /\ st = AfterMark))
    /\ Forall ends_with_mark (removelast pieces).
Proof.
  induction text as [ | c text IH]; intros st piece pieces H Hne.
  - simpl in H. injection H as <- <-. now destruct Hne.
  - assert (Hcons : forall p ps,
               re_split_from (after c) text = (p, ps) ->
               piece = (c :: p) -> pieces = ps ->
               (ends_with_mark piece \/ (piece = [] /\ st = AfterMark))
               /\ Forall ends_with_mark (removelast pieces)).
    { intros p ps Hrec -> ->. destruct (IH _ _ _ Hrec Hne) as [Hp Hps].
      split; [left | exact Hps].
      destruct Hp as [(d & Hl & Hm) | [-> Hafter]].
      - exists d. rewrite last_char_cons, Hl. auto.
      - exists c. split; [reflexivity | ].
        unfold after in Hafter. destruct (is_mark c); [reflexivity | discriminate]. }
    simpl in H. destruct st.
    + destruct (isspace c) eqn:Hc.
      * destruct (re_split_from InSeparator text) as [p ps] eqn:Hrec.
        injection H as <- <-. split; [now right | ].
        destruct ps as [ | q qs]; [constructor | ].
        destruct (IH _ _ _ Hrec) as [Hp Hps]; [discriminate | ].
        change (removelast (p :: q :: qs)) with (p :: removelast (q :: qs)).
        constructor; [ | exact Hps].
        destruct Hp as [Hp | [_ Habs]]; [exact Hp | discriminate].
      * destruct (re_split_from (after c) text) as [p ps] eqn:Hrec.
        injection H as <- <-. now apply (Hcons p ps eq_refl).
    + destruct (isspace c) eqn:Hc.
      * destruct (IH _ _ _ H Hne) as [Hp Hps]. split; [ | exact Hps].
        destruct Hp as [Hp | [_ Habs]]; [now left | discriminate].
      * destruct (re_split_from (after c) text) as [p ps] eqn:Hrec.
        injection H as <- <-. now apply (Hcons p ps eq_refl).
    + destruct (re_split_from (after c) text) as [p ps] eqn:Hrec.
      injection H as <- <-. now apply (Hcons p ps eq_refl).
Qed.

End StringFacts.

(** ** Further properties: [split_text] of [src/speaker_server.py] *)

Module SplitTextFacts.
Import Unicode SpeakerPipe SpeakEndpoint StringFacts.

Lemma kept_chunks_non_space (l : list unicode) :
  non_space
    (List.concat
       (map strip (filter (fun c => negb (eqb (strip c) [])) l)))
  = non_space (List.concat l).
Proof.
  induction l as [ | x l IH]; [reflexivity | ].
  rewrite non_space_concat. simpl filter.
  destruct (UnicodeFacts.eqb_spec (strip x) []) as [Hblank | Hkept]; simpl negb; cbv iota.
  - apply strip_empty in Hblank. now rewrite Hblank, IH.
  - simpl map. now rewrite non_space_concat, non_space_strip, IH.
Qed.

Lemma kept_cons (x : unicode) (l : list unicode) :
  strip x <> [] ->
  map strip (filter (fun c => negb (eqb (strip c) [])) (x :: l))
  = strip x :: map strip (filter (fun c => negb (eqb (strip c) [])) l).
Proof. intros H. apply UnicodeFacts.eqb_neq in H. simpl. now rewrite H. Qed.

Lemma kept_chunks_marks (l : list unicode) :
  Forall ends_with_mark (removelast l) ->
  Forall ends_with_mark
    (removelast (map strip (filter (fun c => negb (eqb (strip c) [])) l))).
Proof.
  induction l as [ | x l IH]; intros H; [constructor | ].
  destruct l as [ | y l].
  - simpl. destruct (negb (eqb (strip x) [])); constructor.
  - change (removelast (x :: y :: l)) with (x :: removelast (y :: l)) in H.
    inversion H as [ | ? ? Hx Hrest]; subst.
    destruct (strip_ends_with_mark x Hx) as [Hmark Hne].
    apply IH in Hrest.
    rewrite (kept_cons x (y :: l) Hne).
    destruct (map strip (filter (fun c => negb (eqb (strip c) [])) (y :: l)))
      as [ | z zs] eqn:Hkept; [constructor | ].
    change (removelast (strip x :: z :: zs)) with (strip x :: removelast (z :: zs)).
    constructor; [exact Hmark | exact Hrest].
Qed.

Lemma re_split_marks (text : unicode) :
  Forall ends_with_mark (removelast (re_split text)).
Proof.
  unfold re_split. destruct (re_split_from Elsewhere text) as [piece pieces] eqn:H.
  destruct pieces as [ | q qs]; [constructor | ].
  destruct (re_split_from_marks text _ _ _ H) as [Hp Hps]; [discriminate | ].
  change (removelast (piece :: q :: qs)) with (piece :: removelast (q :: qs)).
  constructor; [ | exact Hps].
  destruct Hp as [Hp | [_ Habs]]; [exact Hp | discriminate].
Qed.

Lemma split_text_chunks (text : unicode) :
  Forall (fun chunk => chunk <> [] /\ strip chunk = chunk) (split_text text).
Proof.
  unfold split_text. apply Forall_map, Forall_forall. intros c Hin.
  apply filter_In in Hin as [_ Hkept]. split.
  - apply UnicodeFacts.eqb_neq. now destruct (eqb (strip c) []).
  - apply strip_idempotent.
Qed.

Lemma split_text_non_space (text : unicode) :
  non_space (List.concat (split_text text)) = non_space text.
Proof.
  unfold split_text. rewrite kept_chunks_non_space. unfold re_split.
  destruct (re_split_from Elsewhere text) as [piece pieces] eqn:H.
  exact (re_split_from_non_space text _ _ _ H).
Qed.

Lemma split_text_nil (text : unicode) :
  split_text text = [] <-> strip text = [].
Proof.
  rewrite strip_empty. split.
  - intros H. rewrite <- split_text_non_space, H. reflexivity.
  - intros H. pose proof (split_text_chunks text) as Hall.
    pose proof (split_text_non_space text) as Hns. rewrite H in Hns.
    destruct (split_text text) as [ | chunk chunks]; [reflexivity | exfalso].
    inversion Hall as [ | ? ? [Hne Hstrip] _]; subst.
    rewrite non_space_concat in Hns.
    destruct (non_space chunk) eqn:Hc; [ | discriminate].
    apply strip_empty in Hc. congruence.
Qed.

End SplitTextFacts.

Module SplitTextProps.
Import Unicode SpeakerPipe SpeakEndpoint.

(** X1. No chunk that [split_text] returns is empty, and none starts or
    ends with whitespace: stripping a chunk again changes nothing. *)
Theorem split_text_chunks_are_stripped (text : unicode) :
  Forall (fun chunk => chunk <> [] /\ strip chunk = chunk) (split_text text).
Proof. apply SplitTextFacts.split_text_chunks. Qed.

(** X2. [split_text] loses whitespace only: the characters of the chunks
    that are not whitespace are those of the text, in the same order. *)
Theorem split_text_keeps_every_visible_character (text : unicode) :
  non_space (List.concat (split_text text)) = non_space text.
Proof. apply SplitTextFacts.split_text_non_space. Qed.

(** X3. A chunk ends where a mark of [.!,?;] is followed by whitespace:
    every chunk but the last ends with one of these marks. *)
Theorem split_text_cuts_after_marks (text : unicode) :
  Forall ends_with_mark (removelast (split_text text)).
Proof.
  unfold split_text. apply SplitTextFacts.kept_chunks_marks, SplitTextFacts.re_split_marks.
Qed.

(** X4. [split_text] returns no chunk exactly when the text is blank (empty
    once stripped). *)
Theorem split_text_is_empty_on_blank_text_only (text : unicode) :
  split_text text = [] <-> strip text = [].
Proof. apply SplitTextFacts.split_text_nil. Qed.

(** A text with an em space (U+2003) after a mark, an ideographic space
    (U+3000) in front and a line separator (U+2028) at its end. *)
Example split_text_unicode :
  split_text ([0x3000]%N ++ lit "Hi." ++ [0x2003]%N ++ lit "there, you" ++ [0x2028]%N)
  = [lit "Hi."; lit "there,"; lit "you"].
Proof. reflexivity. Qed.

End SplitTextProps.

(** ** Further properties: the [/speak] endpoint of [src/speaker_server.py] *)

Module EndpointFacts.
Import Unicode SpeakerPipe SpeakEndpoint StringFacts.

(** *** [in], [replace] and the sanitizer *)

Lemma startswith_app (s t needle : unicode) :
  startswith s needle = true -> startswith (s ++ t) needle = true.
Proof.
  revert s. induction needle as [ | a needle IH]; intros s H; [reflexivity | ].
  destruct s as [ | b s]; [discriminate | ]. simpl in *.
  apply andb_true_iff in H as [Hab Hrest]. now rewrite Hab, (IH _ Hrest).
Qed.

Lemma contains_prefix (s t needle : unicode) :
  contains (s ++ t) needle = false -> contains s needle = false.
Proof.
  induction s as [ | c s IH]; intros H.
  - destruct needle as [ | a needle]; [ | reflexivity].
    destruct t; discriminate.
  - simpl in H. apply orb_false_iff in H as [Hhead Htail]. simpl.
    rewrite (IH Htail), orb_false_r.
    destruct (startswith (c :: s) needle) eqn:Hs; [ | reflexivity].
    apply startswith_app with (t := t) in Hs. simpl in Hs. congruence.
Qed.

Lemma contains_suffix (s t needle : unicode) :
  contains (s ++ t) needle = false -> contains t needle = false.
Proof.
  induction s as [ | c s IH]; intros H; [exact H | ].
  simpl in H. apply orb_false_iff in H as [_ Htail]. exact (IH Htail).
Qed.

Lemma lstrip_suffix (s : unicode) : exists p, s = (p ++ lstrip s).
Proof.
  induction s as [ | c s (p & IH)]; [now exists [] | ]. simpl.
  destruct (isspace c).
  - exists (c :: p). simpl. now rewrite <- IH.
  - now exists [].
Qed.

Lemma rstrip_prefix (s : unicode) : exists q, s = (rstrip s ++ q).
Proof.
  induction s as [ | c s (q & IH)]; [now exists [] | ]. simpl.
  destruct (rstrip s) as [ | d t].
  - destruct (isspace c).
    + now exists (c :: s).
    + exists s. reflexivity.
  - exists q. simpl. simpl in IH. now rewrite <- IH.
Qed.

Lemma contains_strip (s needle : unicode) :
  contains s needle = false -> contains (strip s) needle = false.
Proof.
  intros H. unfold strip.
  destruct (lstrip_suffix s) as (p & Hp). rewrite Hp in H.
  apply contains_suffix in H.
  destruct (rstrip_prefix (lstrip s)) as (q & Hq). rewrite Hq in H.
  now apply contains_prefix in H.
Qed.

Lemma startswith_cons (b a : char) (s p : unicode) :
  startswith (b :: s) (a :: p) = (N.eqb a b && startswith s p)%bool.
Proof. reflexivity. Qed.

(** Removing every [**] leaves no [**]: of a run of stars at most one
    remains. *)
Lemma replace_stars (s : unicode) :
  contains (replace_from (lit "**") [] 0 s) (lit "**") = false
  /\ (startswith s (lit "*") = false ->
      startswith (replace_from (lit "**") [] 0 s) (lit "*") = false)
  /\ contains (replace_from (lit "**") [] 1 s) (lit "**") = false.
Proof.
  change (lit "**") with [42; 42]%N. change (lit "*") with [42]%N.
  induction s as [ | c s (IH0 & IHhead & IH1)]; [now repeat split | ].
  assert (Hskip : replace_from [42; 42]%N [] 1 (c :: s) = replace_from [42; 42]%N [] 0 s)
    by reflexivity.
  rewrite Hskip.
  assert (Hstep : replace_from [42; 42]%N [] 0 (c :: s)
                  = if startswith (c :: s) [42; 42]%N
                    then replace_from [42; 42]%N [] 1 s
                    else c :: replace_from [42; 42]%N [] 0 s) by reflexivity.
  rewrite Hstep. split; [ | split; [ | exact IH0]].
  - destruct (startswith (c :: s) [42; 42]%N) eqn:Hss; [exact IH1 | ].
    change (contains (c :: replace_from [42; 42]%N [] 0 s) [42; 42]%N)
      with (startswith (c :: replace_from [42; 42]%N [] 0 s) [42; 42]%N
            || contains (replace_from [42; 42]%N [] 0 s) [42; 42]%N)%bool.
    rewrite IH0, orb_false_r, startswith_cons.
    rewrite startswith_cons in Hss.
    destruct (N.eqb 42 c); [ | reflexivity].
    rewrite andb_true_l in Hss |- *. now apply IHhead.
  - intros Hc. rewrite startswith_cons in Hc.
    change (startswith s []) with true in Hc. rewrite andb_true_r in Hc.
    rewrite startswith_cons, Hc. cbv iota beta. rewrite andb_false_l.
    now rewrite startswith_cons, Hc.
Qed.

Lemma sanitize_stars (request_text : unicode) :
  contains (sanitize request_text) (lit "**") = false.
Proof.
  unfold sanitize.
  match goal with
  | |- context [if ?b then _ else _] => destruct b
  end; [reflexivity | ].
  apply contains_strip. unfold replace. apply replace_stars.
Qed.

(** *** The loop over the chunks *)

Section Chunks.
Context {Sv : Server}.

Lemma synthesize_chunks_cons (n i : nat) chunk chunks acc (w : World) :
  synthesize_chunks n i (chunk :: chunks) acc w =
  match generate chunk w with
  | (Ok wav_data, w1) =>
      let '(l, r, w2) :=
        synthesize_chunks n (S i) chunks ((acc ++ [wav_data]) ++ [silence]) w1 in
      (Stdout (lit "DEBUG: Processing chunk " ++ lit (str_of_int (Z.of_nat i + 1)) ++ lit "/"
               ++ lit (str_of_int (Z.of_nat n)) ++ lit ": " ++ chunk)
       :: Generate chunk None :: l, r, w2)
  | (Raise e, w1) =>
      ([Stdout (lit "DEBUG: Processing chunk " ++ lit (str_of_int (Z.of_nat i + 1)) ++ lit "/"
                ++ lit (str_of_int (Z.of_nat n)) ++ lit ": " ++ chunk);
        Generate chunk (Some e)], Raise e, w1)
  end.
Proof.
  cbn [synthesize_chunks]. unfold print. rewrite Run.run_emit_then, Run.run_bind.
  unfold call at 1.
  destruct (generate chunk w) as [[wav_data | e] w1]; [ | reflexivity].
  cbn [raised_by].
  destruct (synthesize_chunks n (S i) chunks ((acc ++ [wav_data]) ++ [silence]) w1)
    as [[l r] w2].
  reflexivity.
Qed.

Lemma generated_app (l1 l2 : list event) :
  generated (l1 ++ l2) = generated l1 ++ generated l2.
Proof.
  induction l1 as [ | ev l1 IH]; [reflexivity | ].
  destruct ev; simpl; now rewrite IH.
Qed.

Lemma no_fault_nil : no_fault [].
Proof. intros chunk e []. Qed.

(** What the loop leaves in the log: lines and calls of the model only; the
    chunks given to the model are the first chunks of the list, all of them
    when the loop returns; and a call that raises is the last event. *)
Lemma synthesize_chunks_run (chunks : list unicode) :
  forall (n i : nat) acc (w : World),
    forallb is_body_event (log_of (synthesize_chunks n i chunks acc w)) = true
    /\ match result_of (synthesize_chunks n i chunks acc w) with
       | Ok all_wav_data =>
           generated (log_of (synthesize_chunks n i chunks acc w)) = chunks
           /\ no_fault (log_of (synthesize_chunks n i chunks acc w))
           /\ (acc <> [] \/ chunks <> [] -> all_wav_data <> [])
       | Raise e =>
           exists before chunk rest,
             log_of (synthesize_chunks n i chunks acc w)
             = before ++ [Generate chunk (Some e)]
             /\ no_fault before
             /\ chunks = generated before ++ chunk :: rest
       end.
Proof.
  induction chunks as [ | chunk chunks IH]; intros n i acc w.
  - split; [reflexivity | ]. cbn. repeat split; [apply no_fault_nil | ].
    intros [H | H]; [exact H | congruence].
  - rewrite synthesize_chunks_cons.
    destruct (generate chunk w) as [[wav_data | e] w1].
    + specialize (IH n (S i) ((acc ++ [wav_data]) ++ [silence]) w1).
      destruct (synthesize_chunks n (S i) chunks ((acc ++ [wav_data]) ++ [silence]) w1)
        as [[l r] w2].
      unfold log_of, result_of in *. simpl fst in *. simpl snd in *.
      destruct IH as [Hbody IH]. split; [exact Hbody | ].
      destruct r as [all_wav_data | e].
      * destruct IH as (Hgen & Hfree & Hne). repeat split.
        -- simpl. now rewrite Hgen.
        -- intros c e [Habs | [Habs | Hin]]; try discriminate. exact (Hfree _ _ Hin).
        -- intros _. apply Hne. left. now destruct (acc ++ [wav_data]).
      * destruct IH as (before & c & rest & -> & Hfree & Hchunks).
        exists (Stdout (lit "DEBUG: Processing chunk " ++ lit (str_of_int (Z.of_nat i + 1))
                        ++ lit "/" ++ lit (str_of_int (Z.of_nat n)) ++ lit ": " ++ chunk)
                :: Generate chunk None :: before), c, rest.
        repeat split.
        -- intros c' e' [Habs | [Habs | Hin]]; try discriminate. exact (Hfree _ _ Hin).
        -- simpl. now rewrite Hchunks.
    + split; [reflexivity | ]. cbn.
      exists [Stdout (lit "DEBUG: Processing chunk " ++ lit (str_of_int (Z.of_nat i + 1))
                      ++ lit "/" ++ lit (str_of_int (Z.of_nat n)) ++ lit ": " ++ chunk)],
             chunk, chunks.
      repeat split. intros c' e' [Habs | []]. discriminate.
Qed.

(** *** A request, outcome by outcome *)

Lemma speak_blank (request_text : unicode) (w : World) :
  split_text (sanitize request_text) = [] ->
  speak request_text w
  = ([Stdout (lit "Synthesizing: " ++ sanitize request_text)],
     Ok (StatusError (lit "No text to synthesize")), w).
Proof. intros H. unfold speak. rewrite H. reflexivity. Qed.

Lemma speak_outcomes (request_text : unicode) (w : World) c cs :
  split_text (sanitize request_text) = c :: cs ->
  speak request_text w =
  let text := sanitize request_text in
  let chunks := c :: cs in
  let pre :=
    [Stdout (lit "Synthesizing: " ++ text);
     Stdout (lit "DEBUG: Split into " ++ lit (str_of_int (Z.of_nat (List.length chunks)))
             ++ lit " chunks: " ++ repr chunks)] in
  match lock_acquire w with
  | (Raise e, w1) =>
      (pre ++ [LockAcquire (Some e); Stdout (lit "Error: " ++ str e)],
       Ok (StatusError (str e)), w1)
  | (Ok _, w1) =>
      let '(body, outcome, w2) :=
        synthesize_chunks (List.length chunks) 0 chunks [] w1 in
      let '(released, w3) := lock_release w2 in
      let locked := pre ++ LockAcquire None :: body ++ [LockRelease (raised_by released)] in
      match (match released with Ok _ => outcome | Raise e => Raise e end) with
      | Raise e =>
          (locked ++ [Stdout (lit "Error: " ++ str e)], Ok (StatusError (str e)), w3)
      | Ok all_wav_data =>
          match concatenate all_wav_data with
          | Raise e =>
              (locked ++ [Stdout (lit "Error: " ++ str e)], Ok (StatusError (str e)), w3)
          | Ok combined_wav =>
              match encode_wav combined_wav w3 with
              | (Ok audio_b64, w4) => (locked, Ok (StatusOk text audio_b64 sr), w4)
              | (Raise e, w4) =>
                  (locked ++ [Stdout (lit "Error: " ++ str e)],
                   Ok (StatusError (str e)), w4)
              end
          end
      end
  end.
Proof.
  intros H. unfold speak. rewrite H.
  cbv [catch MonadExc_M catch_ bind Monad_M bind_ ret ret_ print emit with_lock
       call lift stateful raised_by].
  destruct (lock_acquire w) as [[[] | e] w1]; [ | reflexivity].
  destruct (synthesize_chunks (List.length (c :: cs)) 0 (c :: cs) [] w1)
    as [[body outcome] w2].
  destruct (lock_release w2) as [[[] | e] w3].
  - destruct outcome as [all_wav_data | e].
    + destruct (concatenate all_wav_data) as [combined_wav | e].
      * destruct (encode_wav combined_wav w3) as [[audio_b64 | e] w4];
          cbn [app]; rewrite ?app_nil_r, <- ?app_assoc; reflexivity.
      * cbn [app]; rewrite ?app_nil_r, <- ?app_assoc; reflexivity.
    + cbn [app]; rewrite ?app_nil_r, <- ?app_assoc; reflexivity.
  - cbn [app]; rewrite ?app_nil_r, <- ?app_assoc; reflexivity.
Qed.


Lemma lock_respected_body (body tail : list event) :
  forallb is_body_event body = true ->
  lock_respected true (body ++ tail) = lock_respected true tail.
Proof.
  induction body as [ | ev body IH]; intros H; [reflexivity | ].
  simpl in H. apply andb_true_iff in H as [Hev Hbody].
  destruct ev; try discriminate; simpl; now rewrite IH.
Qed.

Lemma lock_events_body (body : list event) :
  forallb is_body_event body = true -> lock_events body = [].
Proof.
  induction body as [ | ev body IH]; intros H; [reflexivity | ].
  simpl in H. apply andb_true_iff in H as [Hev Hbody].
  destruct ev; try discriminate; simpl; now apply IH.
Qed.

Lemma lock_events_app (l1 l2 : list event) :
  lock_events (l1 ++ l2) = lock_events l1 ++ lock_events l2.
Proof. apply filter_app. Qed.

Lemma sanitize_stripped (request_text : unicode) :
  strip (sanitize request_text) = sanitize request_text.
Proof.
  unfold sanitize.
  match goal with
  | |- context [if ?b then _ else _] => destruct b
  end; [reflexivity | apply strip_idempotent].
Qed.

Lemma sanitize_blank (request_text : unicode) :
  split_text (sanitize request_text) = [] <-> sanitize request_text = [].
Proof. rewrite SplitTextFacts.split_text_nil, sanitize_stripped. reflexivity. Qed.

End Chunks.

(** The pieces of [re.split] are pieces of the text. *)
Lemma re_split_from_substrings (text : unicode) :
  forall st piece pieces,
    re_split_from st text = (piece, pieces) ->
    (exists a b, text = (a ++ piece ++ b)
                 /\ (st <> InSeparator -> a = []))
    /\ Forall (fun q => exists a b, text = (a ++ q ++ b)) pieces.
Proof.
  induction text as [ | c text IH]; intros st piece pieces H.
  - simpl in H. injection H as <- <-. split; [ | constructor].
    exists [], []. now split.
  - assert (Hlift : forall ps,
               Forall (fun q => exists a b, text = (a ++ q ++ b)) ps ->
               Forall (fun q => exists a b, (c :: text) = (a ++ q ++ b)) ps).
    { intros ps Hps. eapply Forall_impl; [ | exact Hps].
      intros q (a & b & ->). now exists (c :: a), b. }
    assert (Hcons : forall p ps,
               re_split_from (after c) text = (p, ps) ->
               (exists a b, (c :: text) = (a ++ (c :: p) ++ b)
                            /\ (st <> InSeparator -> a = []))
               /\ Forall (fun q => exists a b, (c :: text) = (a ++ q ++ b)) ps).
    { intros p ps Hrec. destruct (IH _ _ _ Hrec) as [(a & b & Htext & Ha) Hps].
      split; [ | now apply Hlift].
      assert (a = []) as ->.
      { apply Ha. unfold after. destruct (is_mark c); discriminate. }
      exists [], b. simpl in *. now rewrite <- Htext. }
    simpl in H. destruct st.
    + destruct (isspace c) eqn:Hc.
      * destruct (re_split_from InSeparator text) as [p ps] eqn:Hrec.
        injection H as <- <-. destruct (IH _ _ _ Hrec) as [(a & b & Htext & _) Hps].
        split.
        -- exists [], (c :: text). now split.
        -- constructor; [ | now apply Hlift].
           exists (c :: a), b. simpl. now rewrite <- Htext.
      * destruct (re_split_from (after c) text) as [p ps] eqn:Hrec.
        injection H as <- <-. now apply (Hcons p ps eq_refl).
    + destruct (isspace c) eqn:Hc.
      * destruct (IH _ _ _ H) as [(a & b & Htext & _) Hps].
        split; [ | now apply Hlift].
        exists (c :: a), b. split; [ | congruence]. simpl. now rewrite <- Htext.
      * destruct (re_split_from (after c) text) as [p ps] eqn:Hrec.
        injection H as <- <-. now apply (Hcons p ps eq_refl).
    + destruct (re_split_from (after c) text) as [p ps] eqn:Hrec.
      injection H as <- <-. now apply (Hcons p ps eq_refl).
Qed.

Lemma split_text_substrings (text needle : unicode) :
  contains text needle = false ->
  Forall (fun chunk => contains chunk needle = false) (split_text text).
Proof.
  intros H. unfold split_text. apply Forall_map, Forall_forall.
  intros chunk Hin. apply filter_In in Hin as [Hin _].
  apply contains_strip.
  unfold re_split in Hin.
  destruct (re_split_from Elsewhere text) as [piece pieces] eqn:Hsplit.
  destruct (re_split_from_substrings text _ _ _ Hsplit) as [(a & b & Htext & _) Hps].
  assert (Hsub : exists a b, text = (a ++ chunk ++ b)).
  { destruct Hin as [<- | Hin]; [now exists a, b | ].
    rewrite Forall_forall in Hps. now apply Hps. }
  destruct Hsub as (a' & b' & ->).
  apply contains_suffix in H. now apply contains_prefix in H.
Qed.

End EndpointFacts.

Module EndpointProps.
Import Unicode SpeakerPipe SpeakEndpoint EndpointFacts.

(** X5. The sanitizer removes the bold marker for good: [**] occurs neither
    in the sanitized text (the text of an ok response) nor in any chunk that
    is given to the model. *)
Theorem bold_markers_never_reach_the_model (request_text : unicode) :
  contains (sanitize request_text) (lit "**") = false
  /\ Forall (fun chunk => contains chunk (lit "**") = false)
       (split_text (sanitize request_text)).
Proof.
  split; [apply sanitize_stars | ].
  apply split_text_substrings, sanitize_stars.
Qed.

(** The same does not hold of [##]: removing [**] afterwards can bring two
    [#] together. *)
Example hashes_can_survive : sanitize (lit "#**# one") = lit "## one".
Proof. reflexivity. Qed.

(** X6. A request whose sanitized text is empty is answered with the error
    [No text to synthesize] after one printed line, without a call of the
    lock or of the model and with the world untouched; for every other
    request the lock is asked for. *)
Theorem blank_request_touches_nothing {Sv : Server} (request_text : unicode)
  (w : World) :
  (sanitize request_text = [] ->
   speak request_text w
   = ([Stdout (lit "Synthesizing: ")], Ok (StatusError (lit "No text to synthesize")), w))
  /\ (sanitize request_text <> [] ->
      exists raised, In (LockAcquire raised) (log_of (speak request_text w))).
Proof.
  split.
  - intros H. rewrite speak_blank by now apply sanitize_blank. now rewrite H.
  - intros H.
    destruct (split_text (sanitize request_text)) as [ | c cs] eqn:Hchunks.
    { now apply sanitize_blank in Hchunks. }
    rewrite (speak_outcomes _ _ _ _ Hchunks). cbv zeta.
    destruct (lock_acquire w) as [[[] | e] w1].
    + exists None.
      destruct (synthesize_chunks (List.length (c :: cs)) 0 (c :: cs) [] w1)
        as [[body outcome] w2].
      destruct (lock_release w2) as [released w3].
      assert (Hin : forall tail,
                 In (LockAcquire None)
                   (([Stdout (lit "Synthesizing: " ++ sanitize request_text);
                      Stdout (lit "DEBUG: Split into "
                              ++ lit (str_of_int (Z.of_nat (List.length (c :: cs))))
                              ++ lit " chunks: " ++ repr (c :: cs))]
                     ++ LockAcquire None :: body ++ [LockRelease (raised_by released)])
                    ++ tail)).
      { intros tail. apply in_or_app. left. apply in_or_app. right. now left. }
      destruct (match released with Ok _ => outcome | Raise e => Raise e end)
        as [all_wav_data | e].
      * destruct (concatenate all_wav_data) as [combined_wav | e].
        -- destruct (encode_wav combined_wav w3) as [[audio_b64 | e] w4].
           ++ unfold log_of. simpl fst. specialize (Hin []).
              now rewrite app_nil_r in Hin.
           ++ apply Hin.
        -- apply Hin.
      * apply Hin.
    + exists (Some e). unfold log_of. simpl. auto.
Qed.

Lemma blank_request_touches_nothing_witness :
  speak (Sv := ScriptedServer.server) ([0x3000; 0x2003]%N ++ lit " ** ## ") 0%nat
  = ([Stdout (lit "Synthesizing: ")],
     Ok (StatusError (lit "No text to synthesize")), 0%nat)
  /\ exists raised,
       In (LockAcquire raised)
          (log_of (speak (Sv := ScriptedServer.server) (lit "**Hi,** there.") 0%nat)).
Proof.
  split.
  - apply (proj1 (blank_request_touches_nothing (Sv := ScriptedServer.server)
                    ([0x3000; 0x2003]%N ++ lit " ** ## ") 0%nat)). reflexivity.
  - apply (proj2 (blank_request_touches_nothing (Sv := ScriptedServer.server)
                    (lit "**Hi,** there.") 0%nat)). discriminate.
Defined.

(** X7. The lock is respected by every request.  It is taken at most once:
    the calls of the lock in a request are none at all, or one acquire that
    raised, or one acquire followed by one release.  The model is called
    only while the lock is held, and the lock is released before the
    request ends, also when a chunk fails. *)
Theorem lock_is_respected {Sv : Server} (request_text : unicode) (w : World) :
  lock_respected false (log_of (speak request_text w)) = true
  /\ (lock_events (log_of (speak request_text w)) = []
      \/ (exists e, lock_events (log_of (speak request_text w)) = [LockAcquire (Some e)])
      \/ (exists released,
            lock_events (log_of (speak request_text w))
            = [LockAcquire None; LockRelease released])).
Proof.
  destruct (split_text (sanitize request_text)) as [ | c cs] eqn:Hchunks.
  { rewrite speak_blank by exact Hchunks. split; [reflexivity | now left]. }
  rewrite (speak_outcomes _ _ _ _ Hchunks). cbv zeta.
  destruct (lock_acquire w) as [[[] | e] w1].
  2:{ split; [reflexivity | ]. right. left. now exists e. }
  pose proof (synthesize_chunks_run (c :: cs) (List.length (c :: cs)) 0 [] w1)
    as [Hbody _].
  destruct (synthesize_chunks (List.length (c :: cs)) 0 (c :: cs) [] w1)
    as [[body outcome] w2].
  unfold log_of in Hbody. simpl fst in Hbody.
  destruct (lock_release w2) as [released w3].
  assert (Hlocked : forall tail,
             lock_respected false
               (([Stdout (lit "Synthesizing: " ++ sanitize request_text);
                  Stdout (lit "DEBUG: Split into "
                          ++ lit (str_of_int (Z.of_nat (List.length (c :: cs))))
                          ++ lit " chunks: " ++ repr (c :: cs))]
                 ++ LockAcquire None :: body ++ [LockRelease (raised_by released)])
                ++ tail)
             = lock_respected false tail).
  { intros tail. rewrite <- app_assoc. cbn [app lock_respected negb andb].
    rewrite <- app_assoc. now rewrite (lock_respected_body _ _ Hbody). }
  assert (Hevents : forall tail,
             lock_events
               (([Stdout (lit "Synthesizing: " ++ sanitize request_text);
                  Stdout (lit "DEBUG: Split into "
                          ++ lit (str_of_int (Z.of_nat (List.length (c :: cs))))
                          ++ lit " chunks: " ++ repr (c :: cs))]
                 ++ LockAcquire None :: body ++ [LockRelease (raised_by released)])
                ++ tail)
             = [LockAcquire None; LockRelease (raised_by released)] ++ lock_events tail).
  { intros tail. rewrite !lock_events_app. cbn [lock_events filter is_lock_event app].
    fold (lock_events (body ++ [LockRelease (raised_by released)])).
    rewrite lock_events_app, (lock_events_body _ Hbody). reflexivity. }
  destruct (match released with Ok _ => outcome | Raise e => Raise e end)
    as [all_wav_data | e].
  - destruct (concatenate all_wav_data) as [combined_wav | e].
    + destruct (encode_wav combined_wav w3) as [[audio_b64 | e] w4].
      * cbv beta iota delta [log_of fst]. specialize (Hlocked []).
        specialize (Hevents []). rewrite app_nil_r in Hlocked, Hevents.
        rewrite Hlocked, Hevents. split; [reflexivity | ]. right. right. now eexists.
      * cbv beta iota delta [log_of fst]. rewrite Hlocked, Hevents.
        split; [reflexivity | ]. right. right. now eexists.
    + cbv beta iota delta [log_of fst]. rewrite Hlocked, Hevents.
      split; [reflexivity | ]. right. right. now eexists.
  - cbv beta iota delta [log_of fst]. rewrite Hlocked, Hevents.
    split; [reflexivity | ]. right. right. now eexists.
Qed.

End EndpointProps.

Module EndpointAnswers.
Import Unicode SpeakerPipe SpeakEndpoint EndpointFacts.

Ltac split_in :=
  repeat match goal with
         | H : In _ (_ ++ _) |- _ => apply in_app_or in H as [H | H]
         | H : In _ (_ :: _) |- _ => destruct H as [H | H]
         | H : In _ [] |- _ => destruct H
         | H : Stdout _ = Generate _ _ |- _ => discriminate H
         | H : LockAcquire _ = Generate _ _ |- _ => discriminate H
         | H : LockRelease _ = Generate _ _ |- _ => discriminate H
         end.

(** X8. The endpoint always answers: no exception of the lock, of the model
    or of the encoder leaves [speak].  An answer with status [ok] carries
    the sanitized text and the model's sample rate, and means that every
    chunk of [split_text] was given to the model, once and in order, that no
    call raised, and that the lock was released. *)
Theorem speak_always_answers {Sv : Server} (request_text : unicode) (w : World) :
  exists response,
    result_of (speak request_text w) = Ok response
    /\ forall text audio_b64 sample_rate,
         response = StatusOk text audio_b64 sample_rate ->
         text = sanitize request_text
         /\ sample_rate = sr
         /\ generated (log_of (speak request_text w))
            = split_text (sanitize request_text)
         /\ no_fault (log_of (speak request_text w))
         /\ In (LockRelease None) (log_of (speak request_text w)).
Proof.
  destruct (split_text (sanitize request_text)) as [ | c cs] eqn:Hchunks.
  { rewrite speak_blank by exact Hchunks. eexists. split; [reflexivity | ].
    intros ? ? ? H. discriminate H. }
  rewrite (speak_outcomes _ _ _ _ Hchunks). cbv zeta.
  destruct (lock_acquire w) as [[[] | e] w1].
  2:{ eexists. split; [reflexivity | ]. intros ? ? ? H. discriminate H. }
  pose proof (synthesize_chunks_run (c :: cs) (List.length (c :: cs)) 0 [] w1)
    as [_ Hrun].
  destruct (synthesize_chunks (List.length (c :: cs)) 0 (c :: cs) [] w1)
    as [[body outcome] w2].
  cbv beta iota delta [log_of result_of fst snd] in Hrun.
  destruct (lock_release w2) as [[[] | e] w3].
  2:{ eexists. split; [reflexivity | ]. intros ? ? ? H. discriminate H. }
  destruct outcome as [all_wav_data | e].
  2:{ eexists. split; [reflexivity | ]. intros ? ? ? H. discriminate H. }
  destruct Hrun as (Hgen & Hfree & _).
  destruct (concatenate all_wav_data) as [combined_wav | e].
  2:{ eexists. split; [reflexivity | ]. intros ? ? ? H. discriminate H. }
  destruct (encode_wav combined_wav w3) as [[audio_b64 | e] w4].
  2:{ eexists. split; [reflexivity | ]. intros ? ? ? H. discriminate H. }
  eexists. split; [reflexivity | ].
  intros text b64 rate H. injection H as <- <- <-.
  cbv beta iota delta [log_of fst]. repeat split.
  - rewrite generated_app. cbn [generated app].
    now rewrite generated_app, Hgen, app_nil_r.
  - intros chunk e Hin. split_in. exact (Hfree _ _ Hin).
  - apply in_or_app. right. right. apply in_or_app. right. now left.
Qed.

Lemma speak_always_answers_witness :
  result_of (speak (Sv := ScriptedServer.server) (lit "## Response **Hi,** there.  ok") 0%nat)
  = Ok (StatusOk (lit "Hi, there.  ok") (lit "17") 24000)
  /\ generated (log_of (speak (Sv := ScriptedServer.server)
                          (lit "## Response **Hi,** there.  ok") 0%nat))
     = [lit "Hi,"; lit "there."; lit "ok"].
Proof.
  destruct (speak_always_answers (Sv := ScriptedServer.server)
              (lit "## Response **Hi,** there.  ok") 0%nat) as (response & Hres & Hok).
  assert (Hrun : result_of (speak (Sv := ScriptedServer.server)
                              (lit "## Response **Hi,** there.  ok") 0%nat)
                 = Ok (StatusOk (lit "Hi, there.  ok") (lit "17") 24000)) by reflexivity.
  split; [exact Hrun | ].
  rewrite Hrun in Hres. injection Hres as <-.
  destruct (Hok _ _ _ eq_refl) as (_ & _ & Hgen & _). exact Hgen.
Defined.

(** X9. A chunk on which the model raises ends the synthesis: the answer
    has status [error], the failing chunk is the last one given to the
    model, and the chunks after it are never synthesized.  When the release
    of the lock raises nothing, the message is the text of the model's
    exception. *)
Theorem failed_chunk_ends_the_request {Sv : Server} (request_text : unicode)
  (w : World) (chunk : unicode) (e : Error) :
  In (Generate chunk (Some e)) (log_of (speak request_text w)) ->
  (exists message, result_of (speak request_text w) = Ok (StatusError message))
  /\ (In (LockRelease None) (log_of (speak request_text w)) ->
      result_of (speak request_text w) = Ok (StatusError (str e)))
  /\ exists done rest,
       generated (log_of (speak request_text w)) = done ++ [chunk]
       /\ split_text (sanitize request_text) = done ++ chunk :: rest.
Proof.
  destruct (split_text (sanitize request_text)) as [ | c cs] eqn:Hchunks.
  { rewrite speak_blank by exact Hchunks. intros Hin.
    cbv beta iota delta [log_of fst] in Hin. split_in. }
  rewrite (speak_outcomes _ _ _ _ Hchunks). cbv zeta.
  destruct (lock_acquire w) as [[[] | e0] w1].
  2:{ intros Hin. cbv beta iota delta [log_of fst] in Hin. split_in. }
  pose proof (synthesize_chunks_run (c :: cs) (List.length (c :: cs)) 0 [] w1)
    as [Hev Hrun].
  destruct (synthesize_chunks (List.length (c :: cs)) 0 (c :: cs) [] w1)
    as [[body outcome] w2].
  cbv beta iota delta [log_of result_of fst snd] in Hrun, Hev.
  rewrite forallb_forall in Hev.
  destruct (lock_release w2) as [released w3].
  destruct outcome as [all_wav_data | e1].
  - (* the loop returned: no call of the model raised *)
    destruct Hrun as (_ & Hfree & _). intros Hin. exfalso.
    assert (Hbody : forall tail,
               In (Generate chunk (Some e))
                  (([Stdout (lit "Synthesizing: " ++ sanitize request_text);
                     Stdout (lit "DEBUG: Split into "
                             ++ lit (str_of_int (Z.of_nat (List.length (c :: cs))))
                             ++ lit " chunks: " ++ repr (c :: cs))]
                    ++ LockAcquire None :: body ++ [LockRelease (raised_by released)])
                   ++ tail) ->
               (forall ev, In ev tail -> exists line, ev = Stdout line) -> False).
    { intros tail H Htail. split_in; try exact (Hfree _ _ H).
      destruct (Htail _ H) as (line & Habs). discriminate. }
    destruct released as [[] | e1].
    + destruct (concatenate all_wav_data) as [combined_wav | e1].
      * destruct (encode_wav combined_wav w3) as [[audio_b64 | e1] w4];
          cbv beta iota delta [log_of fst] in Hin.
        -- apply (Hbody []); [now rewrite app_nil_r | intros ev []].
        -- apply (Hbody _ Hin). intros ev [<- | []]. now eexists.
      * cbv beta iota delta [log_of fst] in Hin.
        apply (Hbody _ Hin). intros ev [<- | []]. now eexists.
    + cbv beta iota delta [log_of fst] in Hin.
      apply (Hbody _ Hin). intros ev [<- | []]. now eexists.
  - (* the loop raised [e1] on its last call *)
    destruct Hrun as (before & c1 & rest & -> & Hfree & Hsplit).
    assert (Hsame : forall r tail,
               In (Generate chunk (Some e))
                  (([Stdout (lit "Synthesizing: " ++ sanitize request_text);
                     Stdout (lit "DEBUG: Split into "
                             ++ lit (str_of_int (Z.of_nat (List.length (c :: cs))))
                             ++ lit " chunks: " ++ repr (c :: cs))]
                    ++ LockAcquire None
                       :: (before ++ [Generate c1 (Some e1)]) ++ [LockRelease r])
                   ++ [Stdout tail]) ->
               chunk = c1 /\ e = e1).
    { intros r tail H. split_in; try (exfalso; exact (Hfree _ _ H)).
      injection H as -> ->. now split. }
    assert (Hgen : forall r tail,
               generated
                 (([Stdout (lit "Synthesizing: " ++ sanitize request_text);
                    Stdout (lit "DEBUG: Split into "
                            ++ lit (str_of_int (Z.of_nat (List.length (c :: cs))))
                            ++ lit " chunks: " ++ repr (c :: cs))]
                   ++ LockAcquire None
                      :: (before ++ [Generate c1 (Some e1)]) ++ [LockRelease r])
                  ++ [Stdout tail])
               = generated before ++ [c1]).
    { intros r tail. rewrite generated_app. cbn [generated app].
      rewrite !generated_app. cbn [generated]. now rewrite !app_nil_r. }
    destruct released as [[] | e2]; cbv beta iota delta [log_of result_of fst snd];
      intros Hin; destruct (Hsame _ _ Hin) as [-> ->].
    + split; [now eexists | ]. split; [reflexivity | ].
      exists (generated before), rest. split; [apply Hgen | exact Hsplit].
    + split; [now eexists | ]. split.
      * intros Hrel. exfalso. split_in; try discriminate;
          assert (Hbody : is_body_event (LockRelease None) = true)
            by (apply Hev, in_or_app; now left);
          discriminate.
      * exists (generated before), rest. split; [apply Hgen | exact Hsplit].
Qed.

Lemma failed_chunk_ends_the_request_witness :
  In (Generate (Sv := ScriptedServer.server) (lit "boom.") (Some (lit "out of memory")))
     (log_of (speak (Sv := ScriptedServer.server)
                (lit "## Response **Hi,** there. boom. next") 0%nat))
  /\ result_of (speak (Sv := ScriptedServer.server)
                  (lit "## Response **Hi,** there. boom. next") 0%nat)
     = Ok (StatusError (lit "out of memory")).
Proof.
  assert (Hin : In (Generate (Sv := ScriptedServer.server) (lit "boom.") (Some (lit "out of memory")))
                  (log_of (speak (Sv := ScriptedServer.server)
                             (lit "## Response **Hi,** there. boom. next") 0%nat))).
  { vm_compute. do 8 right. left. reflexivity. }
  split; [exact Hin | ].
  apply (proj1 (proj2 (failed_chunk_ends_the_request (Sv := ScriptedServer.server)
                         (lit "## Response **Hi,** there. boom. next") 0%nat
                         (lit "boom.") (lit "out of memory") Hin))).
  vm_compute. do 9 right. left. reflexivity.
Defined.

End EndpointAnswers.

(** ** Further properties: the two decoding loops *)

Module DecoderFacts.
Import SpeakerServer DecoderLog.

Section Steps.
Context {R : Runtime}.

(** The loop is entered with the last generated token not yet fed.  When it
    returns, either the stop token ended it and every generated token was
    fed, or all [n] iterations were made and the last token was not. *)
Lemma decode_loop_fed c ps (n : nat) :
  forall i before current past (s : Rng) tokens,
    result_of (decode_loop c ps n i (before ++ [current]) current past s) = Ok tokens ->
    (tokens = before ++ fed (log_of (decode_loop c ps n i (before ++ [current]) current past s))
     /\ (List.length (fed (log_of (decode_loop c ps n i (before ++ [current])
                                     current past s))) <= n)%nat
     /\ exists j,
          last (log_of (decode_loop c ps n i (before ++ [current]) current past s))
               (Stdout "")
          = Stdout ("DEBUG: Hit STOP_TOKEN at step " ++ str_of_int j))
    \/ (exists t,
          tokens = before
                   ++ fed (log_of (decode_loop c ps n i (before ++ [current])
                                     current past s))
                   ++ [t]
          /\ List.length (fed (log_of (decode_loop c ps n i (before ++ [current])
                                         current past s))) = n
          /\ last (log_of (decode_loop c ps n i (before ++ [current]) current past s))
                  (Stdout "")
             = Stdout ("DEBUG: Hit max_gen_len (" ++ str_of_int (max_gen_len c) ++ ")")).
Proof.
  induction n as [ | n IH]; intros i before current past s tokens.
  - cbn. intros H. injection H as <-. right. exists current. repeat split.
  - rewrite ServerFacts.decode_loop_step.
    destruct (decode past current) as [[past' logits] | e]; [ | discriminate].
    destruct (multinomial
                (softmax (logits_processors_call ps (before ++ [current]) logits)) s)
      as [[next | e] s1]; [ | discriminate].
    destruct (next =? stop_speech_token)%Z.
    + cbn. intros H. injection H as <-. left. repeat split; [lia | now exists i].
    + specialize (IH (i + 1) (before ++ [current]) next past' s1 tokens).
      destruct (decode_loop c ps n (i + 1) ((before ++ [current]) ++ [next]) next past' s1)
        as [[l r] s2].
      cbv beta iota delta [log_of result_of fst snd] in IH |- *.
      intros H. specialize (IH H).
      assert (Hlast : forall d, l <> [] ->
                 last (Tfmr (SpeechEmb current) None :: l) d = last l d).
      { intros d Hl. destruct l; [contradiction | reflexivity]. }
      destruct IH as [(Htok & Hlen & j & Hl) | (t & Htok & Hlen & Hl)].
      * left. cbn [fed]. repeat split.
        -- now rewrite Htok, <- app_assoc.
        -- simpl. lia.
        -- exists j. rewrite Hlast; [exact Hl | ]. intros ->. discriminate.
      * right. exists t. cbn [fed]. repeat split.
        -- now rewrite Htok, <- app_assoc.
        -- simpl. now rewrite Hlen.
        -- rewrite Hlast; [exact Hl | ]. intros ->. discriminate.
Qed.

(** One iteration of the loop of [debug_python_tokens.py], outcome by
    outcome. *)
Lemma argmax_loop_step ps (n : nat) i speech_tokens past logits (s : Rng) :
  DebugPythonTokens.argmax_loop ps (S n) i speech_tokens past logits s =
  let next := argmax (logits_processors_call ps speech_tokens logits) in
  let line := Stdout ("  Step " ++ str_of_int i ++ ": token=" ++ str_of_int next) in
  if (next =? stop_speech_token)%Z
  then ([line; Stdout "  Hit stop token!"], Ok speech_tokens, s)
  else
    match decode past next with
    | Raise e => ([line; Tfmr (SpeechEmb next) (Some e)], Raise e, s)
    | Ok (past', logits') =>
        let '(l, r, s1) :=
          DebugPythonTokens.argmax_loop ps n (i + 1) (speech_tokens ++ [next])
            past' logits' s in
        (line :: Tfmr (SpeechEmb next) None :: l, r, s1)
    end.
Proof.
  cbn [DebugPythonTokens.argmax_loop]. cbv zeta. unfold print at 1.
  rewrite Run.run_emit_then.
  destruct (argmax (logits_processors_call ps speech_tokens logits)
            =? stop_speech_token)%Z.
  - unfold print. rewrite Run.run_emit_then. reflexivity.
  - rewrite Run.run_bind. unfold tfmr at 1. rewrite Run.run_emit_then.
    unfold lift at 1.
    destruct (decode past (argmax (logits_processors_call ps speech_tokens logits)))
      as [[past' logits'] | e]; [ | reflexivity].
    cbn [raised_by].
    match goal with
    | |- context [DebugPythonTokens.argmax_loop ?a ?b ?c ?d ?e ?f ?g] =>
        destruct (DebugPythonTokens.argmax_loop a b c d e f g) as [[l r] s1]
    end.
    reflexivity.
Qed.

Lemma argmax_loop_fed ps (n : nat) :
  forall i speech_tokens past logits (s : Rng) tokens,
    result_of (DebugPythonTokens.argmax_loop ps n i speech_tokens past logits s)
    = Ok tokens ->
    tokens = speech_tokens
             ++ fed (log_of (DebugPythonTokens.argmax_loop ps n i speech_tokens
                               past logits s))
    /\ Forall (fun t => t <> stop_speech_token)
         (fed (log_of (DebugPythonTokens.argmax_loop ps n i speech_tokens past logits s)))
    /\ (List.length (fed (log_of (DebugPythonTokens.argmax_loop ps n i speech_tokens
                                    past logits s))) <= n)%nat.
Proof.
  induction n as [ | n IH]; intros i speech_tokens past logits s tokens.
  - cbn. intros H. injection H as <-. rewrite app_nil_r.
    repeat split; [constructor | lia].
  - rewrite argmax_loop_step. cbv zeta.
    destruct (Z.eqb_spec (argmax (logits_processors_call ps speech_tokens logits))
                stop_speech_token) as [Hstop | Hgo].
    + cbn. intros H. injection H as <-. rewrite app_nil_r.
      repeat split; [constructor | lia].
    + destruct (decode past (argmax (logits_processors_call ps speech_tokens logits)))
        as [[past' logits'] | e]; [ | discriminate].
      match goal with
      | |- context [DebugPythonTokens.argmax_loop ?a ?b ?c ?d ?e ?f ?g] =>
          specialize (IH c d e f g tokens);
          destruct (DebugPythonTokens.argmax_loop a b c d e f g) as [[l r] s1]
      end.
      cbv beta iota delta [log_of result_of fst snd] in IH |- *.
      intros H. destruct (IH H) as (Htok & Hall & Hlen). cbn [fed].
      repeat split.
      * now rewrite Htok, <- app_assoc.
      * constructor; [exact Hgo | exact Hall].
      * simpl. lia.
Qed.

(** A run of the arg-max script, outcome by outcome. *)
Lemma main_run_cases (s : Rng) :
  DebugPythonTokens.main s =
  let head :=
    [Stdout ("Generating for: " ++ DebugPythonTokens.text)] in
  match init_error (RepetitionPenaltyLogitsProcessor 1.2) with
  | Some e => (head, Raise e, s)
  | None =>
      let lines :=
        head ++ [Stdout ("Start token: " ++ str_of_int start_speech_token);
                 Stdout ("Stop token: " ++ str_of_int stop_speech_token)] in
      match prefill conds_t3 (tokenizer_encode DebugPythonTokens.text)
              [start_speech_token] None with
      | Raise e =>
          (lines ++ [Tfmr (Embeds (tokenizer_encode DebugPythonTokens.text)
                             [start_speech_token]) (Some e)], Raise e, s)
      | Ok (past, logits) =>
          let '(l, r, s1) :=
            DebugPythonTokens.argmax_loop [RepetitionPenaltyLogitsProcessor 1.2] 20 0
              [start_speech_token] past logits s in
          (lines ++ Tfmr (Embeds (tokenizer_encode DebugPythonTokens.text)
                            [start_speech_token]) None :: l, r, s1)
      end
  end.
Proof.
  unfold DebugPythonTokens.main. unfold print at 1.
  rewrite Run.run_emit_then, Run.run_bind. unfold new at 1. cbv zeta.
  destruct (init_error (RepetitionPenaltyLogitsProcessor 1.2)) as [e | ];
    [reflexivity | ].
  cbn [ret Py.Monad_M ret_]. cbv beta iota.
  unfold print at 1. rewrite Run.run_emit_then.
  unfold print at 1. rewrite Run.run_emit_then.
  rewrite Run.run_bind. unfold tfmr at 1. rewrite Run.run_emit_then. unfold lift at 1.
  destruct (prefill conds_t3 (tokenizer_encode DebugPythonTokens.text)
              [start_speech_token] None) as [[past logits] | e]; [ | reflexivity].
  cbn [raised_by app].
  destruct (DebugPythonTokens.argmax_loop [RepetitionPenaltyLogitsProcessor 1.2] 20 0
              [start_speech_token] past logits s) as [[l r] s1].
  reflexivity.
Qed.

End Steps.

End DecoderFacts.

Module DecoderProps.
Import SpeakerServer DecoderLog.

(** X10. When [t3_inference_turbo_optimized] returns, the tokens given back
    to the transformer are the returned tokens, in order: all of them when
    the stop token ended the run (the log ends with the line of line 81),
    all but the last when the length cap did, after exactly [max_gen_len]
    fed tokens (the log ends with the line of line 87). *)
Theorem returned_tokens_are_the_fed_tokens {R : Runtime} t3_cond text_tokens
  (c : SamplingConfig) (s : Rng) (tokens : list Z) :
  result_of (t3_inference_turbo_optimized t3_cond text_tokens c s) = Ok tokens ->
  (tokens = fed (log_of (t3_inference_turbo_optimized t3_cond text_tokens c s))
   /\ (List.length tokens <= Z.to_nat (max_gen_len c))%nat
   /\ exists j,
        last (log_of (t3_inference_turbo_optimized t3_cond text_tokens c s)) (Stdout "")
        = Stdout ("DEBUG: Hit STOP_TOKEN at step " ++ str_of_int j))
  \/ (exists t,
        tokens = fed (log_of (t3_inference_turbo_optimized t3_cond text_tokens c s))
                 ++ [t]
        /\ List.length tokens = S (Z.to_nat (max_gen_len c))
        /\ last (log_of (t3_inference_turbo_optimized t3_cond text_tokens c s))
                (Stdout "")
           = Stdout ("DEBUG: Hit max_gen_len (" ++ str_of_int (max_gen_len c) ++ ")")).
Proof.
  rewrite ServerFacts.t3_inference_turbo_optimized_run. cbv zeta.
  destruct (construct (source_order c)) as [ps | e]; [ | discriminate].
  destruct (prefill t3_cond text_tokens [start_speech_token] (Some 0%float))
    as [[past logits] | e]; [ | discriminate].
  destruct (multinomial
              (softmax (logits_processors_call ps [start_speech_token] logits)) s)
    as [[first | e] s1]; [ | discriminate].
  pose proof (DecoderFacts.decode_loop_fed c ps (Z.to_nat (max_gen_len c)) 0 []
                first past s1 tokens) as Hloop.
  cbn [app] in Hloop.
  destruct (decode_loop c ps (Z.to_nat (max_gen_len c)) 0 [first] first past s1)
    as [[l r] s2].
  cbv beta iota delta [log_of result_of fst snd] in Hloop |- *.
  intros H. specialize (Hloop H). cbn [fed].
  assert (Hlast : forall d a b, l <> [] -> last (a :: b :: l) d = last l d).
  { intros d a b Hl. destruct l; [contradiction | reflexivity]. }
  destruct Hloop as [(Htok & Hlen & j & Hl) | (t & Htok & Hlen & Hl)].
  - left. repeat split; [exact Htok | now rewrite Htok | ].
    exists j. rewrite Hlast; [exact Hl | ]. intros ->. discriminate.
  - right. exists t. repeat split; [exact Htok | | ].
    + rewrite Htok, length_app, Hlen. simpl. lia.
    + rewrite Hlast; [exact Hl | ]. intros ->. discriminate.
Qed.

Lemma returned_tokens_are_the_fed_tokens_witness :
  result_of (t3_inference_turbo_optimized (R := Scripted.stop_first_and_third) tt
               [1; 2; 3] Scripted.three_steps 0%nat)
  = Ok [6562; 10]
  /\ fed (log_of (t3_inference_turbo_optimized (R := Scripted.stop_first_and_third) tt
                    [1; 2; 3] Scripted.three_steps 0%nat))
     = [6562; 10].
Proof.
  assert (Hrun : result_of (t3_inference_turbo_optimized
                              (R := Scripted.stop_first_and_third) tt
                              [1; 2; 3] Scripted.three_steps 0%nat)
                 = Ok [6562; 10]) by reflexivity.
  split; [exact Hrun | ].
  destruct (returned_tokens_are_the_fed_tokens (R := Scripted.stop_first_and_third)
              tt [1; 2; 3] Scripted.three_steps 0%nat [6562; 10] Hrun)
    as [(Htok & _) | (t & Htok & Hlen & _)].
  - symmetry. exact Htok.
  - discriminate Hlen.
Defined.

(** X11. The arg-max script keeps what the sampling loop does not: when it
    returns, [speech_tokens] is the start token followed by at most twenty
    tokens, none of them the stop token, and each of them was given back to
    the transformer, in order. *)
Theorem argmax_variant_never_keeps_the_stop_token {R : Runtime} (s : Rng)
  (speech_tokens : list Z) :
  result_of (DebugPythonTokens.main s) = Ok speech_tokens ->
  speech_tokens = start_speech_token :: fed (log_of (DebugPythonTokens.main s))
  /\ Forall (fun t => t <> stop_speech_token) (fed (log_of (DebugPythonTokens.main s)))
  /\ (List.length (fed (log_of (DebugPythonTokens.main s))) <= 20)%nat.
Proof.
  rewrite DecoderFacts.main_run_cases. cbv zeta.
  destruct (init_error (RepetitionPenaltyLogitsProcessor 1.2)) as [e | ];
    [discriminate | ].
  destruct (prefill conds_t3 (tokenizer_encode DebugPythonTokens.text)
              [start_speech_token] None) as [[past logits] | e]; [ | discriminate].
  pose proof (DecoderFacts.argmax_loop_fed [RepetitionPenaltyLogitsProcessor 1.2] 20 0
                [start_speech_token] past logits s speech_tokens) as Hloop.
  destruct (DebugPythonTokens.argmax_loop [RepetitionPenaltyLogitsProcessor 1.2] 20 0
              [start_speech_token] past logits s) as [[l r] s1].
  cbv beta iota delta [log_of result_of fst snd] in Hloop |- *.
  intros H. destruct (Hloop H) as (Htok & Hall & Hlen). cbn [app fed].
  repeat split; assumption.
Qed.

Lemma argmax_variant_never_keeps_the_stop_token_witness :
  result_of (DebugPythonTokens.main
               (R := Scripted.runtime (Scripted.tokens [5; 4; 6562] 9)) 0%nat)
  = Ok [6561; 5; 4]
  /\ [6561; 5; 4]
     = start_speech_token (Runtime := Scripted.runtime (Scripted.tokens [5; 4; 6562] 9))
       :: fed (log_of (DebugPythonTokens.main
                         (R := Scripted.runtime (Scripted.tokens [5; 4; 6562] 9)) 0%nat))
  /\ le (List.length
           (fed (log_of (DebugPythonTokens.main
                           (R := Scripted.runtime (Scripted.tokens [5; 4; 6562] 9))
                           0%nat))))
        20%nat.
Proof.
  assert (Hrun : result_of (DebugPythonTokens.main
                              (R := Scripted.runtime (Scripted.tokens [5; 4; 6562] 9))
                              0%nat)
                 = Ok [6561; 5; 4]) by reflexivity.
  split; [exact Hrun | ].
  destruct (argmax_variant_never_keeps_the_stop_token
              (R := Scripted.runtime (Scripted.tokens [5; 4; 6562] 9)) 0%nat
              [6561; 5; 4] Hrun) as (Htok & _ & Hlen).
  split; [exact Htok | exact Hlen].
Defined.

End DecoderProps.

(** ** Further properties: the server loop of [src/speaker_pipe.py] *)

Module PipeProps.
Import Unicode SpeakerPipe.

(** X12. Nothing after an [EXIT] line is read, and [EXIT] itself prints
    nothing: a run on lines with an [EXIT] among them is the run on the
    lines before it, with the same output and the same final world. *)
Theorem nothing_is_served_after_exit {Sp : Speaker} (before : list unicode)
  (line : unicode) (after : list unicode) (w : World) :
  strip line = lit "EXIT" ->
  serve (before ++ line :: after) w = serve before w
  /\ main (before ++ line :: after) w = main before w.
Proof.
  intros Hexit.
  assert (Hserve : forall w0, serve (before ++ line :: after) w0 = serve before w0).
  { induction before as [ | l before IH]; intros w0.
    - exact (PipeClaims.serve_exit line after w0 Hexit).
    - cbn [app].
      destruct (UnicodeFacts.eqb_spec (strip l) []) as [Hblank | Hblank].
      { rewrite !(PipeClaims.serve_blank _ _ _ Hblank). apply IH. }
      destruct (UnicodeFacts.eqb_spec (strip l) (lit "EXIT")) as [Hl | Hl].
      { now rewrite !(PipeClaims.serve_exit _ _ _ Hl). }
      rewrite !(PipeClaims.serve_request _ _ _ Hblank Hl).
      destruct (synthesize (strip l) w0) as [[audio_b64 | e] w1]; now rewrite IH. }
  split; [apply Hserve | ].
  unfold main. rewrite !Run.run_emit_then. now rewrite Hserve.
Qed.

Lemma nothing_is_served_after_exit_witness :
  strip ([0x3000]%N ++ lit "EXIT" ++ [0x2028; LF]%N) = lit "EXIT"
  /\ serve (Sp := Scripted.speaker)
       ([lit "hello" ++ [LF]; lit "   " ++ [LF]; lit "boom" ++ [LF]]
        ++ ([0x3000]%N ++ lit "EXIT" ++ [0x2028; LF]%N) :: [lit "after" ++ [LF]])
       0%nat
     = serve (Sp := Scripted.speaker)
         [lit "hello" ++ [LF]; lit "   " ++ [LF]; lit "boom" ++ [LF]] 0%nat.
Proof.
  split; [reflexivity | ].
  apply (proj1 (nothing_is_served_after_exit (Sp := Scripted.speaker)
                  [lit "hello" ++ [LF]; lit "   " ++ [LF]; lit "boom" ++ [LF]]
                  ([0x3000]%N ++ lit "EXIT" ++ [0x2028; LF]%N)
                  [lit "after" ++ [LF]] 0%nat eq_refl)).
Defined.

(** X13. The loop serves a stream line by line: when no line of [first]
    is an [EXIT], serving [first ++ second] is serving [first] and then
    [second] from the world that [first] left, whether the requests of
    [first] succeeded or raised. *)
Theorem serving_composes {Sp : Speaker} (first second : list unicode) (w : World) :
  Forall (fun line => strip line <> lit "EXIT") first ->
  serve (first ++ second) w
  = (log_of (serve first w) ++ log_of (serve second (state_of (serve first w))),
     result_of (serve second (state_of (serve first w))),
     state_of (serve second (state_of (serve first w)))).
Proof.
  intros Hfirst. revert w.
  induction Hfirst as [ | l first Hl _ IH]; intros w.
  - cbn. now destruct (serve second w) as [[log r] w1].
  - cbn [app].
    destruct (UnicodeFacts.eqb_spec (strip l) []) as [Hblank | Hblank].
    { rewrite !(PipeClaims.serve_blank _ _ _ Hblank). apply IH. }
    rewrite !(PipeClaims.serve_request _ _ _ Hblank Hl).
    destruct (synthesize (strip l) w) as [[audio_b64 | e] w1];
      rewrite IH; reflexivity.
Qed.

Lemma serving_composes_witness :
  serve (Sp := Scripted.speaker)
    ([lit "boom" ++ [LF]; [0x2003; LF]%N] ++ [lit "hello"; lit "EXIT"; lit "late"]) 0%nat
  = ([lit "ERROR:out of memory"; lit "AUDIO:hello"], Ok tt, 2%nat).
Proof.
  refine (eq_trans
            (serving_composes (Sp := Scripted.speaker)
               [lit "boom" ++ [LF]; [0x2003; LF]%N]
               [lit "hello"; lit "EXIT"; lit "late"] 0%nat _) _).
  - repeat constructor; discriminate.
  - reflexivity.
Defined.

(** X17. The protocol of the loop, counted in calls of [print]: a line whose
    stripped content is empty is skipped and prints nothing; a line whose
    stripped content is [EXIT] ends the loop and prints nothing; every
    other line is answered by exactly one [print], of [AUDIO:<base64>] when
    the synthesis returns and of [ERROR:<message>] when it raises, and the
    loop goes on with the next line.  So a whole run prints [READY], then
    once for each request, and ends without an exception. *)
Theorem every_request_is_answered_by_one_print {Sp : Speaker} :
  (forall line stdin (w : World),
     strip line = [] -> serve (line :: stdin) w = serve stdin w)
  /\ (forall line stdin (w : World),
        strip line = lit "EXIT" -> serve (line :: stdin) w = ([], Ok tt, w))
  /\ (forall line stdin (w : World),
        strip line <> [] -> strip line <> lit "EXIT" ->
        exists response w1,
          ((exists audio_b64,
              synthesize (strip line) w = (Ok audio_b64, w1)
              /\ response = lit "AUDIO:" ++ audio_b64)
           \/ (exists e,
                 synthesize (strip line) w = (Raise e, w1)
                 /\ response = lit "ERROR:" ++ str e))
          /\ serve (line :: stdin) w
             = (response :: log_of (serve stdin w1),
                result_of (serve stdin w1), state_of (serve stdin w1)))
  /\ (forall stdin (w : World),
        result_of (main stdin w) = Ok tt
        /\ exists responses,
             log_of (main stdin w) = lit "READY" :: responses
             /\ List.length responses = List.length (requests stdin)
             /\ Forall is_response responses).
Proof.
  split; [exact PipeClaims.serve_blank | ].
  split; [exact PipeClaims.serve_exit | ].
  split.
  - intros line stdin w Hblank Hexit.
    pose proof (PipeClaims.serve_request line stdin w Hblank Hexit) as H.
    destruct (synthesize (strip line) w) as [[audio_b64 | e] w1] eqn:Hsyn.
    + exists (lit "AUDIO:" ++ audio_b64), w1. split; [ | exact H].
      left. now exists audio_b64.
    + exists (lit "ERROR:" ++ str e), w1. split; [ | exact H].
      right. now exists e.
  - intros stdin w. unfold main. rewrite Run.run_emit_then.
    destruct (PipeClaims.serve_answers stdin w) as (Hres & Hlen & Hall).
    destruct (serve stdin w) as [[l r] w1]. split; [exact Hres | ].
    exists l. auto.
Qed.

Lemma every_request_is_answered_by_one_print_witness :
  log_of (main (Sp := Scripted.speaker) Scripted.stdin_lines 0%nat)
  = [lit "READY"; lit "AUDIO:hello"; lit "ERROR:out of memory"]
  /\ exists response w1,
       ((exists audio_b64,
           synthesize (Speaker := Scripted.speaker) (strip ([0x2003]%N ++ lit "boom" ++ [LF]))
             0%nat = (Ok audio_b64, w1)
           /\ response = lit "AUDIO:" ++ audio_b64)
        \/ (exists e,
              synthesize (Speaker := Scripted.speaker)
                (strip ([0x2003]%N ++ lit "boom" ++ [LF])) 0%nat = (Raise e, w1)
              /\ response = lit "ERROR:" ++ str e))
       /\ serve (Sp := Scripted.speaker) [[0x2003]%N ++ lit "boom" ++ [LF]] 0%nat
          = (response :: log_of (serve (Sp := Scripted.speaker) [] w1),
             result_of (serve (Sp := Scripted.speaker) [] w1),
             state_of (serve (Sp := Scripted.speaker) [] w1)).
Proof.
  split; [reflexivity | ].
  apply (proj1 (proj2 (proj2 (every_request_is_answered_by_one_print
                                (Sp := Scripted.speaker))))
           ([0x2003]%N ++ lit "boom" ++ [LF]) [] 0%nat); discriminate.
Defined.

End PipeProps.

(** ** Further properties: the histogram of [src/analyze_onnx.py] *)

Module OnnxFacts.
Import AnalyzeOnnx.

Lemma get_set_same (d : dict) (k : string) (v default : nat) :
  get (set d k v) k default = v.
Proof.
  induction d as [ | [k' v'] d IH]; simpl.
  - now rewrite String.eqb_refl.
  - destruct (String.eqb k' k) eqn:Hk; simpl; now rewrite Hk.
Qed.

Lemma get_set_other (d : dict) (k k' : string) (v default : nat) :
  k' <> k -> get (set d k v) k' default = get d k' default.
Proof.
  intros Hne. induction d as [ | [k0 v0] d IH]; simpl.
  - apply not_eq_sym, String.eqb_neq in Hne. now rewrite Hne.
  - destruct (String.eqb_spec k0 k) as [-> | Hk]; simpl.
    + apply not_eq_sym, String.eqb_neq in Hne. now rewrite Hne.
    + destruct (String.eqb k0 k'); [reflexivity | exact IH].
Qed.

Lemma keys_set (d : dict) (k : string) (v : nat) :
  map fst (set d k v) = map fst d
  \/ (~ In k (map fst d) /\ map fst (set d k v) = map fst d ++ [k]).
Proof.
  induction d as [ | [k' v'] d IH]; simpl.
  - right. split; [tauto | reflexivity].
  - destruct (String.eqb_spec k' k) as [-> | Hk]; simpl; [now left | ].
    destruct IH as [-> | [Hnot ->]]; [now left | right].
    split; [intros [H | H]; contradiction | reflexivity].
Qed.

Lemma sum_set (d : dict) (k : string) :
  list_sum (map snd (set d k (get d k 0 + 1)%nat)) = S (list_sum (map snd d)).
Proof.
  induction d as [ | [k' v'] d IH]; simpl; [reflexivity | ].
  destruct (String.eqb k' k); simpl; [lia | rewrite IH; lia].
Qed.

(** The loop of lines 12-13 from any dictionary. *)
Lemma count_from (nodes : list NodeProto) :
  forall d : dict,
    let counted :=
      fold_left
        (fun op_counts node =>
           set op_counts (op_type node) (get op_counts (op_type node) 0 + 1)%nat)
        nodes d in
    (forall op, get counted op 0
                = (get d op 0 + count_occ string_dec (map op_type nodes) op)%nat)
    /\ (NoDup (map fst d) -> NoDup (map fst counted))
    /\ list_sum (map snd counted) = (list_sum (map snd d) + List.length nodes)%nat.
Proof.
  induction nodes as [ | n nodes IH]; intros d; cbn zeta.
  - simpl. repeat split; [intros; lia | auto | lia].
  - cbn [fold_left map].
    destruct (IH (set d (op_type n) (get d (op_type n) 0 + 1)%nat))
      as (Hget & Hdup & Hsum).
    cbn zeta in Hget, Hdup, Hsum. repeat split.
    + intros op. rewrite Hget. cbn [count_occ].
      destruct (string_dec (op_type n) op) as [<- | Hne].
      * rewrite get_set_same. lia.
      * rewrite get_set_other by congruence. lia.
    + intros Hd. apply Hdup.
      destruct (keys_set d (op_type n) (get d (op_type n) 0 + 1)%nat)
        as [-> | [Hnot ->]]; [exact Hd | ].
      apply NoDup_app; [exact Hd | repeat constructor; intros [] | ].
      intros k Hin [<- | []]. contradiction.
    + rewrite Hsum, sum_set. simpl. lia.
Qed.

(** *** Sorting by count *)

Lemma insert_perm (x : string * nat) (l : list (string * nat)) :
  Permutation.Permutation (x :: l) (insert x l).
Proof.
  induction l as [ | y l IH]; simpl; [reflexivity | ].
  destruct (snd x <? snd y)%nat; [ | reflexivity].
  rewrite Permutation.perm_swap. now apply Permutation.perm_skip.
Qed.

Lemma insert_sorted (x : string * nat) (l : list (string * nat)) :
  Sorted.Sorted count_ge l -> Sorted.Sorted count_ge (insert x l).
Proof.
  induction l as [ | y l IH]; intros Hs; simpl.
  - repeat constructor.
  - destruct (Nat.ltb_spec (snd x) (snd y)) as [Hlt | Hge].
    + inversion Hs as [ | ? ? Hl Hhd]; subst.
      constructor; [now apply IH | ].
      destruct l as [ | z l]; simpl.
      * constructor. unfold count_ge. lia.
      * destruct (Nat.ltb_spec (snd x) (snd z)).
        -- constructor. now inversion Hhd.
        -- constructor. unfold count_ge. lia.
    + constructor; [exact Hs | ]. constructor. exact Hge.
Qed.

Lemma insert_stable (n : nat) (x : string * nat) (l : list (string * nat)) :
  filter (fun item => Nat.eqb (snd item) n) (insert x l)
  = filter (fun item => Nat.eqb (snd item) n) (x :: l).
Proof.
  induction l as [ | y l IH]; [reflexivity | ]. cbn [insert].
  destruct (Nat.ltb_spec (snd x) (snd y)) as [Hlt | Hge]; [ | reflexivity].
  cbn [filter] in IH |- *. rewrite IH.
  destruct (Nat.eqb_spec (snd x) n) as [Hx | Hx];
    destruct (Nat.eqb_spec (snd y) n) as [Hy | Hy]; try reflexivity.
  lia.
Qed.

(** The general facts of the sort: the same items, in an order of never
    increasing count, items of equal count in the order they had. *)
Lemma sorted_by_count_sorts (items : list (string * nat)) :
  Permutation.Permutation items (sorted_by_count items)
  /\ Sorted.Sorted count_ge (sorted_by_count items)
  /\ forall n,
       filter (fun item => Nat.eqb (snd item) n) (sorted_by_count items)
       = filter (fun item => Nat.eqb (snd item) n) items.
Proof.
  induction items as [ | x items (Hperm & Hsorted & Hstable)].
  - repeat split; constructor.
  - cbn [sorted_by_count fold_right]. fold (sorted_by_count items). repeat split.
    + rewrite <- insert_perm. now constructor.
    + now apply insert_sorted.
    + intros n. rewrite insert_stable. cbn [filter]. now rewrite Hstable.
Qed.

(** *** Items and lookups *)

Lemma get_in (d : dict) (k : string) (v default : nat) :
  NoDup (map fst d) -> In (k, v) d -> get d k default = v.
Proof.
  induction d as [ | [k' v'] d IH]; intros Hd Hin; [destruct Hin | ].
  cbn [map fst] in Hd. inversion Hd as [ | ? ? Hnot Hd']; subst.
  cbn [get]. destruct Hin as [H | H].
  - injection H as -> ->. now rewrite String.eqb_refl.
  - destruct (String.eqb_spec k' k) as [-> | _]; [ | now apply IH].
    exfalso. apply Hnot. change k with (fst (k, v)). now apply in_map.
Qed.

Lemma in_get (d : dict) (k : string) (v : nat) :
  get d k 0 = v -> (0 < v)%nat -> In (k, v) d.
Proof.
  induction d as [ | [k' v'] d IH]; cbn [get]; intros Hget Hpos; [lia | ].
  destruct (String.eqb_spec k' k) as [-> | _].
  - left. now rewrite Hget.
  - right. now apply IH.
Qed.

Lemma set_positive (d : dict) (k : string) (v : nat) :
  Forall (fun item => 0 < snd item)%nat d -> (0 < v)%nat ->
  Forall (fun item => 0 < snd item)%nat (set d k v).
Proof.
  intros Hd Hv. induction Hd as [ | [k' v'] d Hpos Hd IH]; cbn [set].
  - now repeat constructor.
  - destruct (String.eqb k' k); constructor; auto.
Qed.

Lemma count_positive (nodes : list NodeProto) :
  forall d : dict,
    Forall (fun item => 0 < snd item)%nat d ->
    Forall (fun item => 0 < snd item)%nat
      (fold_left
         (fun op_counts node =>
            set op_counts (op_type node) (get op_counts (op_type node) 0 + 1)%nat)
         nodes d).
Proof.
  induction nodes as [ | n nodes IH]; intros d Hd; [exact Hd | ].
  cbn [fold_left]. apply IH, set_positive; [exact Hd | lia].
Qed.

(** *** The printed report *)

Lemma print_counts_run {O : Onnx} (items : list (string * nat)) (w : World) :
  print_counts items w
  = (map (fun item => "  " ++ fst item ++ ": " ++ str_of_int (Z.of_nat (snd item)))%string
         items,
     Ok tt, w).
Proof.
  induction items as [ | [op count] items IH]; [reflexivity | ].
  cbn [print_counts]. rewrite Run.run_emit_then, IH. reflexivity.
Qed.

Lemma print_nodes_run {O : Onnx} (nodes : list NodeProto) (w : World) :
  print_nodes nodes w
  = (map (fun node => "  " ++ op_type node ++ ": " ++ name node ++ " (Inputs: "
                      ++ repr (input node) ++ ", Outputs: " ++ repr (output node)
                      ++ ")")%string
         nodes,
     Ok tt, w).
Proof.
  induction nodes as [ | n nodes IH]; [reflexivity | ].
  cbn [print_nodes]. rewrite Run.run_emit_then, IH. reflexivity.
Qed.

Lemma firstn_min {A} (n : nat) (l : list A) :
  firstn (Nat.min n (List.length l)) l = firstn n l.
Proof.
  destruct (Nat.le_ge_cases n (List.length l)) as [H | H].
  - now rewrite Nat.min_l.
  - rewrite Nat.min_r by exact H. now rewrite firstn_all, firstn_all2.
Qed.

End OnnxFacts.

Module OnnxProps.
Import AnalyzeOnnx.

(** X14. The dictionary built by the loop of lines 11-13 is the histogram
    of the graph: every operator type has the number of nodes of that type
    as its count (zero when absent), no operator type is listed twice, and
    the counts add up to the number of nodes. *)
Theorem op_counts_is_the_histogram (nodes : list NodeProto) :
  (forall op, get (count_ops nodes) op 0 = count_occ string_dec (map op_type nodes) op)
  /\ NoDup (map fst (count_ops nodes))
  /\ list_sum (map snd (count_ops nodes)) = List.length nodes.
Proof.
  destruct (OnnxFacts.count_from nodes []) as (Hget & Hdup & Hsum).
  cbn zeta in Hget, Hdup, Hsum. unfold count_ops. repeat split.
  - intros op. now rewrite Hget.
  - apply Hdup. constructor.
  - now rewrite Hsum.
Qed.

(** X15. The report of a model that loads: three header lines, then one
    line for each operator type of the graph with its number of nodes, the
    most frequent type first and no type twice (types of equal count in the
    order in which they first occur in the dictionary), then the first 50
    nodes of the graph in their order.  Nothing raises, and the world is
    the one the load left. *)
Theorem counts_are_listed_most_frequent_first {O : Onnx} (path : string)
  (w : World) (graph : GraphProto) (w1 : World) :
  load path w = (Ok graph, w1) ->
  let listed := sorted_by_count (count_ops (node graph)) in
  analyze_model path w
  = ([ "📊 Analyzing model: " ++ path;
       "Inputs: " ++ repr (graph_input graph);
       "Outputs: " ++ repr (graph_output graph);
       Scripted.newline ++ "Op Counts:" ]%string
     ++ map (fun item => "  " ++ fst item ++ ": "
                         ++ str_of_int (Z.of_nat (snd item)))%string listed
     ++ (Scripted.newline ++ "Graph Structure (Top 50 nodes):")%string
        :: map (fun n => "  " ++ op_type n ++ ": " ++ name n ++ " (Inputs: "
                         ++ repr (input n) ++ ", Outputs: " ++ repr (output n)
                         ++ ")")%string
               (firstn 50 (node graph)),
     Ok tt, w1)
  /\ Sorted.Sorted count_ge listed
  /\ NoDup (map fst listed)
  /\ (forall op count,
        In (op, count) listed
        <-> count = count_occ string_dec (map op_type (node graph)) op
            /\ (0 < count)%nat)
  /\ forall count,
       filter (fun item => Nat.eqb (snd item) count) listed
       = filter (fun item => Nat.eqb (snd item) count) (count_ops (node graph)).
Proof.
  intros Hload listed.
  destruct (OnnxFacts.sorted_by_count_sorts (count_ops (node graph)))
    as (Hperm & Hsorted & Hstable).
  destruct (OnnxFacts.count_from (node graph) []) as (Hget & Hdup & _).
  cbn zeta in Hget, Hdup. fold (count_ops (node graph)) in Hget, Hdup.
  specialize (Hdup (NoDup_nil _)).
  fold listed in Hperm, Hsorted, Hstable.
  split; [ | split; [exact Hsorted | split; [ | split; [ | exact Hstable]]]].
  - unfold analyze_model. rewrite Run.run_bind. unfold stateful at 1.
    rewrite Hload. cbv zeta.
    rewrite !Run.run_emit_then, Run.run_bind, OnnxFacts.print_counts_run.
    rewrite Run.run_emit_then, OnnxFacts.print_nodes_run, OnnxFacts.firstn_min.
    reflexivity.
  - eapply Permutation.Permutation_NoDup; [ | exact Hdup].
    now apply Permutation.Permutation_map.
  - intros op count. split.
    + intros Hin. apply (Permutation.Permutation_in _ (Permutation.Permutation_sym Hperm)) in Hin.
      split.
      * rewrite <- (Nat.add_0_l (count_occ _ _ _)).
        change 0%nat with (get [] op 0) at 1. rewrite <- Hget.
        symmetry. now apply OnnxFacts.get_in.
      * pose proof (OnnxFacts.count_positive (node graph) [] (Forall_nil _)) as Hpos.
        rewrite Forall_forall in Hpos. exact (Hpos _ Hin).
    + intros [-> Hpos]. apply (Permutation.Permutation_in _ Hperm).
      apply OnnxFacts.in_get; [now rewrite Hget | exact Hpos].
Qed.

Lemma counts_are_listed_most_frequent_first_witness :
  log_of (analyze_model (O := ScriptedOnnx.onnx) "decoder.onnx" 0%nat)
  = [ "📊 Analyzing model: decoder.onnx";
      "Inputs: x";
      "Outputs: out";
      Scripted.newline ++ "Op Counts:";
      "  Gather: 2";
      "  Add: 1";
      "  MatMul: 1";
      Scripted.newline ++ "Graph Structure (Top 50 nodes):";
      "  Add: a0 (Inputs: y, b, Outputs: z)";
      "  Gather: g0 (Inputs: x, Outputs: y)";
      "  MatMul: m0 (Inputs: z, w, Outputs: out)";
      "  Gather: g1 (Inputs: x, Outputs: y)" ]%string.
Proof.
  rewrite (proj1 (counts_are_listed_most_frequent_first (O := ScriptedOnnx.onnx)
                    "decoder.onnx" 0%nat ScriptedOnnx.decoder 1%nat eq_refl)).
  reflexivity.
Defined.

End OnnxProps.

(** ** Further properties: the temporary file of [src/speak.py] *)

Module SpeakProps.
Import Speak.

Ltac run_call f :=
  match goal with
  | |- context [f ?w] => destruct (f w) as [[? | ?] ?]
  end.

Ltac events :=
  repeat match goal with
         | H : In _ (_ ++ _) |- _ => apply in_app_or in H as [H | H]
         | H : In _ (_ :: _) |- _ => destruct H as [H | H]
         | H : In _ [] |- _ => destruct H
         | H : exists _, _ |- _ => destruct H as [? H]
         | H : @eq event _ _ |- _ => discriminate H
         | H : @eq event _ _ |- _ => injection H as ?; subst
         end.

(** X16. The script never ends in an exception of the model, of the file
    system or of the player, and it removes nothing but the temporary file
    it created.  It asks for the removal of that file exactly when the
    player returned: a file that was created is left behind whenever
    writing it or playing it raised.  Without a text on the command line
    it prints the usage line and touches nothing. *)
Theorem temporary_file_is_removed_only_after_playback {P : Player}
  (argv : list string) (w : World) :
  result_of (main argv w) = Ok tt
  /\ (forall temp_path raised,
        In (Removed temp_path raised) (log_of (main argv w)) ->
        In (Created temp_path) (log_of (main argv w)))
  /\ (forall temp_path,
        In (Created temp_path) (log_of (main argv w)) ->
        ((exists raised, In (Removed temp_path raised) (log_of (main argv w)))
         <-> In (Played temp_path None) (log_of (main argv w))))
  /\ ((List.length argv < 2)%nat ->
      main argv w = ([Stdout "Usage: python speak.py <text>"], Ok tt, w)).
Proof.
  unfold main.
  destruct (Nat.ltb_spec (List.length argv) 2) as [Hargs | Hargs].
  { cbv [log_of result_of print emit fst snd]. repeat split; intros; events. }
  cbv [bind ret catch Monad_M MonadExc_M bind_ ret_ catch_ print emit stateful
       lift call].
  run_call (from_pretrained (if mps_is_available w then "mps" else "cpu")%string).
  2:{ cbv [log_of result_of fst snd app]. repeat split; intros; try lia; events. }
  match goal with
  | |- context [generate ?m ?t ?w0] => destruct (generate m t w0) as [[wav_tensor | ?] ?]
  end.
  2:{ cbv [log_of result_of fst snd app raised_by].
      repeat split; intros; try lia; events. }
  destruct (numpy wav_tensor) as [wav_data | ?].
  2:{ cbv [log_of result_of fst snd app raised_by].
      repeat split; intros; try lia; events. }
  match goal with
  | |- context [named_temporary_file ?w0] =>
      destruct (named_temporary_file w0) as [[path | ?] ?]
  end.
  2:{ cbv [log_of result_of fst snd app raised_by].
      repeat split; intros; try lia; events. }
  match goal with
  | |- context [sf_write ?a ?b ?c ?w0] => destruct (sf_write a b c w0) as [[[] | ?] ?]
  end.
  2:{ cbv [log_of result_of fst snd app raised_by].
      repeat split; intros; try lia; events. }
  match goal with
  | |- context [afplay ?a ?w0] => destruct (afplay a w0) as [[[] | ?] ?]
  end.
  2:{ cbv [log_of result_of fst snd app raised_by].
      repeat split; intros; try lia; events. }
  match goal with
  | |- context [remove ?a ?w0] => destruct (remove a w0) as [[[] | ?] ?]
  end;
    cbv [log_of result_of fst snd app raised_by];
    repeat split; intros; try lia; events; simpl; eauto 12.
Qed.

Lemma temporary_file_is_removed_only_after_playback_witness :
  main (P := ScriptedPlayer.no_player) ["speak.py"] []
  = ([Stdout (P := ScriptedPlayer.no_player) "Usage: python speak.py <text>"],
     Ok tt, [])
  /\ ((exists raised,
         In (Removed (P := ScriptedPlayer.mac) "/tmp/tmp0.wav" raised)
            (log_of (main (P := ScriptedPlayer.mac) ["speak.py"; "hello"] [])))
      <-> In (Played (P := ScriptedPlayer.mac) "/tmp/tmp0.wav" None)
             (log_of (main (P := ScriptedPlayer.mac) ["speak.py"; "hello"] []))).
Proof.
  split.
  - apply (proj2 (proj2 (proj2 (temporary_file_is_removed_only_after_playback
                                  (P := ScriptedPlayer.no_player) ["speak.py"] [])))).
    simpl. lia.
  - apply (proj1 (proj2 (proj2 (temporary_file_is_removed_only_after_playback
                                  (P := ScriptedPlayer.mac) ["speak.py"; "hello"] [])))).
    vm_compute. do 2 right. left. reflexivity.
Defined.

(** On a machine without the player the file stays; with the player it is
    gone at the end. *)
Example file_is_left_behind_without_a_player :
  main (P := ScriptedPlayer.no_player) ["speak.py"; "hello"; "there"] []
  = ([Stdout (P := ScriptedPlayer.no_player) "Using device: cpu";
      Generate "hello there" None;
      Created "/tmp/tmp0.wav";
      Written "/tmp/tmp0.wav" None;
      Played (P := ScriptedPlayer.no_player) "/tmp/tmp0.wav"
        (Some "No such file or directory: 'afplay'"%string);
      Stdout "Error: No such file or directory: 'afplay'"],
     Ok tt, ["/tmp/tmp0.wav"%string])
  /\ state_of (main (P := ScriptedPlayer.mac) ["speak.py"; "hello"; "there"] []) = [].
Proof. split; reflexivity. Qed.

End SpeakProps.
